(** * A shallow embedding of the PJAX navigation engine
    (_includes/js/dependencies/pjax.js).

    The file holds two versions of the engine: an object literal [pjax],
    and the class [PJAX] that replaces it (the last statements bind
    [window.pjax] to an instance of the class).  The class is modelled
    first, in the module [PJAX]; the object literal, taken on its own, is
    the module [Legacy].

    The engine lives in a browser: the document trees, the selector
    matching, the history and the event loop are its environment.  The
    first module models the part of the DOM the engine touches; the second
    one is the engine itself, method by method. *)

From Stdlib Require Import String Ascii List Bool Arith Lia ZArith NArith.
From Stdlib Require Import Sorting.Sorted RelationClasses.
From Stdlib Require Import DecimalString DecimalN DecimalPos.
Import ListNotations.
Local Open Scope string_scope.
Local Open Scope list_scope.
Set Warnings "-register-all".

(** ** The document object model *)

Module DOM.

(** An element carries a tag name, its attributes in source order and the
    number of click listeners the engine has attached to it. *)
Record element := mkElement {
  tagName : string;
  attributes : list (string * string);
  clickListeners : nat
}.

Inductive node :=
| Text (data : string)
| Elem (e : element) (childNodes : list node).

(** A document is the list of children of its Document node.  An element
    is addressed by the child indices leading to it; the empty path is the
    Document node itself, which is not an element. *)
Definition Document := list node.
Definition path := list nat.

(** *** Attributes *)

Fixpoint assoc (name : string) (l : list (string * string)) : option string :=
  match l with
  | [] => None
  | (k, v) :: l' => if String.eqb k name then Some v else assoc name l'
  end.

Fixpoint assoc_set (name v : string) (l : list (string * string))
  : list (string * string) :=
  match l with
  | [] => [(name, v)]
  | (k, w) :: l' =>
      if String.eqb k name then (k, v) :: l' else (k, w) :: assoc_set name v l'
  end.

(** [element.getAttribute(name)]: [None] is JavaScript's [null]. *)
Definition getAttribute (e : element) (name : string) : option string :=
  assoc name (attributes e).

(** [element.setAttribute(name, value)] with the value already a string:
    an attribute that is there keeps its place, a new one goes last.  The
    name is taken to be a valid attribute name. *)
Definition setAttribute (name v : string) (e : element) : element :=
  mkElement (tagName e) (assoc_set name v (attributes e)) (clickListeners e).

(** [setAttribute] converts its second argument with ToString, so the
    [null] that [getAttribute] returns for a missing attribute is stored
    as the four letters "null". *)
Definition toString (v : option string) : string :=
  match v with
  | Some s => s
  | None => "null"
  end.

(** *** Text content *)

Fixpoint textContent (n : node) : string :=
  match n with
  | Text s => s
  | Elem _ cs => String.concat "" (map textContent cs)
  end.

(** The [textContent] setter of an element replaces all its children by one
    text node, or by nothing when the string is empty.  The engine only
    writes through element handles: where the handle's path now holds a
    text node, the element has left the tree and the tree stays as it
    is. *)
Definition textNodes (s : string) : list node :=
  if String.eqb s "" then [] else [Text s].

Definition setTextContent (s : string) (n : node) : node :=
  match n with
  | Text d => Text d
  | Elem e _ => Elem e (textNodes s)
  end.

Definition mapElement (f : element -> element) (n : node) : node :=
  match n with
  | Text s => Text s
  | Elem e cs => Elem (f e) cs
  end.

(** *** Selectors

    The engine only builds selectors from type, class and attribute tests
    joined by the descendant combinator, so that fragment is what is
    modelled.  Tag names are taken as the parser stores them (lower
    case). *)

Inductive simple :=
| Type_ (tag : string)                    (* title *)
| Class (name : string)                   (* .body *)
| AttrEquals (name value : string)        (* [rel="canonical"] *)
| AttrPrefix (name value : string)        (* [property^="og:"] *)
| AttrSuffix (name value : string).       (* [name$="title"] *)

(** A compound selector is a conjunction of simple ones. *)
Definition compound := list simple.

(** A complex selector: compounds joined by descendant combinators, the
    last one being the subject. *)
Record selector := mkSelector {
  context : list compound;
  subject : compound
}.

(** The template literal [`${a} ${b}`]. *)
Definition descendant (a b : selector) : selector :=
  mkSelector (context a ++ subject a :: context b) (subject b).

Definition isSpace (c : ascii) : bool :=
  let n := nat_of_ascii c in
  Nat.eqb n 32 || Nat.eqb n 9 || Nat.eqb n 10 || Nat.eqb n 12 || Nat.eqb n 13.

(** Split a [class] attribute into its tokens. *)
Fixpoint tokens_aux (cur : string) (s : string) : list string :=
  match s with
  | EmptyString => if String.eqb cur "" then [] else [cur]
  | String c s' =>
      if isSpace c
      then (if String.eqb cur "" then [] else [cur]) ++ tokens_aux "" s'
      else tokens_aux (cur ++ String c "") s'
  end.

Definition tokens (s : string) : list string := tokens_aux "" s.

Definition endsWith (suffix s : string) : bool :=
  Nat.leb (String.length suffix) (String.length s) &&
  String.eqb
    (substring (String.length s - String.length suffix) (String.length suffix) s)
    suffix.

Definition matchesSimple (t : simple) (e : element) : bool :=
  match t with
  | Type_ tag => String.eqb (tagName e) tag
  | Class c =>
      match getAttribute e "class" with
      | Some v => existsb (String.eqb c) (tokens v)
      | None => false
      end
  | AttrEquals n v =>
      match getAttribute e n with
      | Some w => String.eqb w v
      | None => false
      end
  | AttrPrefix n v =>
      match getAttribute e n with
      | Some w => negb (String.eqb v "") && String.prefix v w
      | None => false
      end
  | AttrSuffix n v =>
      match getAttribute e n with
      | Some w => negb (String.eqb v "") && endsWith v w
      | None => false
      end
  end.

Definition matchesCompound (c : compound) (e : element) : bool :=
  forallb (fun t => matchesSimple t e) c.

(** [within cs ancs]: the compounds [cs] are matched, in order, by a
    subsequence of the ancestors [ancs] (outermost first). *)
Fixpoint within (cs : list compound) (ancs : list element) : bool :=
  match cs with
  | [] => true
  | c :: cs' =>
      (fix scan (l : list element) : bool :=
         match l with
         | [] => false
         | a :: l' => if matchesCompound c a then within cs' l' else scan l'
         end) ancs
  end.

Definition matches (sel : selector) (ancs : list element) (e : element) : bool :=
  matchesCompound (subject sel) e && within (context sel) ancs.

(** *** Tree traversal

    A NodeList entry: where the element is and the element as it was when
    the list was taken.  The lists the engine uses are static. *)
Definition NodeList := list (path * node).

Definition below (i : nat) (x : path * node) : path * node :=
  (i :: fst x, snd x).

(** [select sel ancs n] lists, in document order, the elements of the
    subtree [n] that match [sel] (paths relative to [n]), where [ancs] are
    the ancestors of [n]. *)
Fixpoint select (sel : selector) (ancs : list element) (n : node) : NodeList :=
  match n with
  | Text _ => []
  | Elem e cs =>
      (if matches sel ancs e then [([], n)] else []) ++
      (fix children (i : nat) (l : list node) : NodeList :=
         match l with
         | [] => []
         | c :: l' =>
             map (below i) (select sel (ancs ++ [e]) c) ++ children (S i) l'
         end) 0 cs
  end.

Fixpoint selectChildren (sel : selector) (ancs : list element) (i : nat)
  (l : list node) : NodeList :=
  match l with
  | [] => []
  | c :: l' => map (below i) (select sel ancs c) ++ selectChildren sel ancs (S i) l'
  end.

(** [document.querySelectorAll(sel)]: a static list, in document order. *)
Definition querySelectorAll (d : Document) (sel : selector) : NodeList :=
  selectChildren sel [] 0 d.

(** [document.querySelector(sel)]: the first match, or [null]. *)
Definition querySelector (d : Document) (sel : selector) : option (path * node) :=
  hd_error (querySelectorAll d sel).

(** *** Reading and writing at a path *)

Fixpoint nodeAt (n : node) (p : path) : option node :=
  match p with
  | [] => Some n
  | i :: p' =>
      match n with
      | Text _ => None
      | Elem _ cs =>
          match nth_error cs i with
          | Some c => nodeAt c p'
          | None => None
          end
      end
  end.

Definition lookup (d : Document) (p : path) : option node :=
  match p with
  | [] => None
  | i :: p' =>
      match nth_error d i with
      | Some c => nodeAt c p'
      | None => None
      end
  end.

Fixpoint mapAt {A : Type} (i : nat) (f : A -> A) (l : list A) {struct l}
  : list A :=
  match l with
  | [] => []
  | x :: l' =>
      match i with
      | O => f x :: l'
      | S i' => x :: mapAt i' f l'
      end
  end.

(** Apply [f] to the node at [p]; a path that leads nowhere (the node has
    been detached from the tree) leaves the tree as it is. *)
Fixpoint updateNode (f : node -> node) (p : path) (n : node) : node :=
  match p with
  | [] => f n
  | i :: p' =>
      match n with
      | Text s => Text s
      | Elem e cs => Elem e (mapAt i (updateNode f p') cs)
      end
  end.

Definition update (f : node -> node) (p : path) (d : Document) : Document :=
  match p with
  | [] => d
  | i :: p' => mapAt i (updateNode f p') d
  end.

Fixpoint removeNth {A : Type} (i : nat) (l : list A) {struct l} : list A :=
  match l with
  | [] => []
  | x :: l' =>
      match i with
      | O => l'
      | S i' => x :: removeNth i' l'
      end
  end.

(** Take the node at [p] out of its parent. *)
Fixpoint removeChildren (p : path) (l : list node) : list node :=
  match p with
  | [] => l
  | [i] => removeNth i l
  | i :: p' =>
      mapAt i (fun c => match c with
                        | Text s => Text s
                        | Elem e cs => Elem e (removeChildren p' cs)
                        end) l
  end.

Definition remove (p : path) (d : Document) : Document := removeChildren p d.

(** [getAttribute] on a node taken from a NodeList. *)
Definition nodeAttribute (n : node) (name : string) : option string :=
  match n with
  | Elem e _ => getAttribute e name
  | Text _ => None
  end.

(** What an element handle reads from the tree. *)
Definition elementAt (d : Document) (p : path) : option element :=
  match lookup d p with
  | Some (Elem e _) => Some e
  | _ => None
  end.


Definition textAt (d : Document) (p : path) : option string :=
  option_map textContent (lookup d p).


(** Document order: an element comes before its descendants and before
    whatever follows it. *)
Fixpoint precedes (p q : path) : Prop :=
  match p, q with
  | [], [] => False
  | [], _ :: _ => True
  | _ :: _, [] => False
  | i :: p', j :: q' => i < j \/ (i = j /\ precedes p' q')
  end.

(** Induction on nodes, with the hypothesis for every child. *)
Fixpoint node_induction (P : node -> Prop)
  (HText : forall s, P (Text s))
  (HElem : forall e cs, Forall P cs -> P (Elem e cs))
  (n : node) : P n :=
  match n with
  | Text s => HText s
  | Elem e cs =>
      HElem e cs
        ((fix all (l : list node) : Forall P l :=
            match l with
            | [] => Forall_nil P
            | c :: l' =>
                Forall_cons c (node_induction P HText HElem c) (all l')
            end) cs)
  end.

Definition isElement (n : node) : Prop := exists e cs, n = Elem e cs.

(** The markup of a tree: the tree without its listeners, which no
    selector can see. *)
Definition markupOf (e : element) : element :=
  mkElement (tagName e) (attributes e) 0.

Fixpoint markup (n : node) : node :=
  match n with
  | Text s => Text s
  | Elem e cs => Elem (markupOf e) (map markup cs)
  end.

(** The Document node seen as the root of the tree, for the lemmas that
    go from the trees to the documents. *)
Definition rootElement : element := mkElement "#document" [] 0.

(** [document.head]: the first [head] child of the [html] root element. *)
Fixpoint firstElement (tag : string) (l : list node) : option (list node) :=
  match l with
  | [] => None
  | Text _ :: l' => firstElement tag l'
  | Elem e cs :: l' =>
      if String.eqb (tagName e) tag then Some cs else firstElement tag l'
  end.

Definition head (d : Document) : option (list node) :=
  match firstElement "html" d with
  | Some cs => firstElement "head" cs
  | None => None
  end.

End DOM.

(** ** JavaScript values and completions *)

Module JS.

Inductive value :=
| Undefined
| Null
| Boolean (b : bool)
| Number (z : Z)
| Str (s : string)
| Object (id : nat)
| Function (f : nat).

Definition typeof (v : value) : string :=
  match v with
  | Undefined => "undefined"
  | Null => "object"
  | Boolean _ => "boolean"
  | Number _ => "number"
  | Str _ => "string"
  | Object _ => "object"
  | Function _ => "function"
  end.

(** What a [throw] carries: an error raised by the runtime, or whatever
    value user code threw. *)
Inductive exn :=
| TypeError (message : string)
| Thrown (v : value).

Inductive completion (A : Type) :=
| Normal (a : A)
| Throw (e : exn).

Arguments Normal {A} a.
Arguments Throw {A} e.


End JS.

(** ** The engine: class PJAX *)

Module PJAX.
Import DOM JS.

Record AttributeEntry := mkEntry {
  entry_selector : selector;
  entry_attribute : string
}.

Record ReplaceConfig := mkReplace {
  textContent : list selector;
  attribute : list AttributeEntry
}.

(** The two functions the engine stores in properties. *)
Inductive handler :=
| ExecQueue       (* the unbound method [this.execQueue] *)
| PopstateArrow.  (* the arrow function installed by [setup] *)

(** The instance: the fields set by the constructor, and [afterLoad],
    which [onload] adds. *)
Record Engine := mkEngine {
  container : selector;
  links : selector;
  replace : ReplaceConfig;
  queue : list value;
  afterLoad : option handler
}.

(** The part of [window] the engine reads or writes. *)
Record Window := mkWindow {
  document : Document;
  location : string;             (* window.location.href *)
  pushStateSupported : bool;     (* history && history.pushState *)
  pushed : list string;          (* URLs given to history.pushState, oldest first *)
  onload_ : option handler;      (* window.onload *)
  onpopstate : option handler;   (* window.onpopstate *)
  globalQueue : option (list value); (* window.queue; the source never defines it *)
  sent : list string             (* GET requests sent, oldest first *)
}.

(** What can be observed of a run: callbacks called, failures logged,
    script texts evaluated. *)
Inductive event :=
| Called (f : nat)
| Logged (e : exn) (func : value)
| Evaluated (text : string).

Section Engine.

(** Callbacks and inline scripts are opaque to the engine.  They act on
    the rest of the page, of some type [U], and are taken not to reach
    into the engine or into the window properties modelled here; a
    callback returns or throws, an inline script that fails reports to the
    browser and not to the code that inserted it. *)
Variable U : Type.
Variable call : nat -> U -> U * option exn.
Variable evalScript : string -> U -> U.

Record State := mkState {
  window : Window;
  pjax : Engine;
  page : U;
  trace : list event
}.

Definition M (A : Type) : Type := State -> completion A * State.

Definition ret {A : Type} (a : A) : M A := fun s => (Normal a, s).

Definition bind {A B : Type} (m : M A) (k : A -> M B) : M B :=
  fun s =>
    match m s with
    | (Normal a, s') => k a s'
    | (Throw e, s') => (Throw e, s')
    end.

Definition throw {A : Type} (e : exn) : M A := fun s => (Throw e, s).

Definition tryCatch {A : Type} (m : M A) (h : exn -> M A) : M A :=
  fun s =>
    match m s with
    | (Normal a, s') => (Normal a, s')
    | (Throw e, s') => h e s'
    end.

Notation "x <- m ;; k" := (bind m (fun x => k))
  (at level 61, m at next level, right associativity).
Notation "m ;; k" := (bind m (fun _ => k))
  (at level 61, right associativity).

Definition gets {A : Type} (f : State -> A) : M A := fun s => (Normal (f s), s).
Definition modify (f : State -> State) : M unit := fun s => (Normal tt, f s).

Fixpoint forEach {A : Type} (f : A -> nat -> M unit) (key : nat) (l : list A)
  : M unit :=
  match l with
  | [] => ret tt
  | x :: l' => f x key ;; forEach f (S key) l'
  end.

(** *** Field updates *)

Definition withWindow (f : Window -> Window) (s : State) : State :=
  mkState (f (window s)) (pjax s) (page s) (trace s).
Definition withEngine (f : Engine -> Engine) (s : State) : State :=
  mkState (window s) (f (pjax s)) (page s) (trace s).
Definition withPage (f : U -> U) (s : State) : State :=
  mkState (window s) (pjax s) (f (page s)) (trace s).
Definition emit (ev : event) (s : State) : State :=
  mkState (window s) (pjax s) (page s) (trace s ++ [ev]).

Definition setDocument (d : Document) (w : Window) : Window :=
  mkWindow d (location w) (pushStateSupported w) (pushed w) (onload_ w)
    (onpopstate w) (globalQueue w) (sent w).
Definition pushState (url : string) (w : Window) : Window :=
  mkWindow (document w) url (pushStateSupported w) (pushed w ++ [url])
    (onload_ w) (onpopstate w) (globalQueue w) (sent w).
Definition setOnload (h : handler) (w : Window) : Window :=
  mkWindow (document w) (location w) (pushStateSupported w) (pushed w)
    (Some h) (onpopstate w) (globalQueue w) (sent w).
Definition setOnpopstate (h : handler) (w : Window) : Window :=
  mkWindow (document w) (location w) (pushStateSupported w) (pushed w)
    (onload_ w) (Some h) (globalQueue w) (sent w).
Definition send (url : string) (w : Window) : Window :=
  mkWindow (document w) (location w) (pushStateSupported w) (pushed w)
    (onload_ w) (onpopstate w) (globalQueue w) (sent w ++ [url]).

Definition pushQueue (v : value) (e : Engine) : Engine :=
  mkEngine (container e) (links e) (replace e) (queue e ++ [v]) (afterLoad e).
Definition setAfterLoad (h : handler) (e : Engine) : Engine :=
  mkEngine (container e) (links e) (replace e) (queue e) (Some h).
Definition setReplace (r : ReplaceConfig) (e : Engine) : Engine :=
  mkEngine (container e) (links e) r (queue e) (afterLoad e).

(** *** constructor and the static getters *)

Definition DEFAULT_CONTAINER : selector := mkSelector [] [Class "body"].
Definition DEFAULT_LINKS : selector := mkSelector [] [Class "pjax-link"].
Definition DEFAULT_REPLACE : ReplaceConfig :=
  mkReplace
    [ mkSelector [] [Type_ "title"] ]
    [ mkEntry (mkSelector [] [Type_ "meta"; AttrSuffix "name" "title"]) "content";
      mkEntry (mkSelector [] [Type_ "meta"; AttrSuffix "name" "description"]) "content";
      mkEntry (mkSelector [] [Type_ "meta"; AttrPrefix "property" "og:"]) "content";
      mkEntry (mkSelector [] [Type_ "meta"; AttrPrefix "property" "article:"]) "content";
      mkEntry (mkSelector [] [Type_ "link"; AttrEquals "rel" "canonical"]) "href" ].

Definition orDefault {A : Type} (arg : option A) (d : A) : A :=
  match arg with
  | Some a => a
  | None => d
  end.

(** An argument left out ([None]) takes its default. *)
Definition constructor (container_ links_ : option selector)
  (replace_ : option ReplaceConfig) : Engine :=
  mkEngine (orDefault container_ DEFAULT_CONTAINER)
           (orDefault links_ DEFAULT_LINKS)
           (orDefault replace_ DEFAULT_REPLACE)
           []
           None.

(** *** execQueue *)

(** Calling a value: a function runs its body; anything else is not
    callable. *)
Definition invoke (func : value) : M unit :=
  fun s =>
    match func with
    | Function f =>
        let (u, r) := call f (page s) in
        let s' := emit (Called f) (withPage (fun _ => u) s) in
        match r with
        | None => (Normal tt, s')
        | Some e => (Throw e, s')
        end
    | _ => (Throw (TypeError "func is not a function"), s)
    end.

(** [console.log('Failed to execute: ', e, func)] *)
Definition consoleLog (e : exn) (func : value) : M unit :=
  modify (emit (Logged e func)).

(** The body of the arrow function given to [this.queue.forEach]. *)
Definition execEntry (func : value) (key : nat) : M unit :=
  if String.eqb (typeof func) "function"
  then tryCatch (invoke func) (fun e => consoleLog e func)
  else ret tt.

(** The object [this] is bound to when [execQueue] runs. *)
Inductive receiver :=
| ThisEngine    (* called as a method: this.execQueue(), this.afterLoad() *)
| ThisWindow.   (* called by the browser as the window.onload handler *)

(** [this.queue]: on the instance it is the array; on [window] it is
    whatever global of that name the page has, and reading [forEach] from
    [undefined] throws. *)
Definition thisQueue (this : receiver) : M (list value) :=
  fun s =>
    match this with
    | ThisEngine => (Normal (queue (pjax s)), s)
    | ThisWindow =>
        match globalQueue (window s) with
        | Some q => (Normal q, s)
        | None =>
            (Throw (TypeError "Cannot read properties of undefined (reading 'forEach')"), s)
        end
    end.

Definition execQueue (this : receiver) : M unit :=
  q <- thisQueue this ;;
  forEach execEntry 0 q.

(** *** onload *)

Definition onload (callback : value) : M unit :=
  (if String.eqb (typeof callback) "function"
   then modify (withEngine (pushQueue callback))
   else ret tt) ;;
  modify (withWindow (setOnload ExecQueue)) ;;
  modify (withEngine (setAfterLoad ExecQueue)).

(** *** addLinkEvent

    Each call adds one more click listener to every element of the list,
    whether or not it already has one. *)
Definition addListener (e : element) : element :=
  mkElement (tagName e) (attributes e) (S (clickListeners e)).

Definition addLinkEvent (pjaxLinks : NodeList) (d : Document) : Document :=
  fold_left (fun d' l => update (mapElement addListener) (fst l) d') pjaxLinks d.

(** *** request *)

(** Reading a property of [found[key]]: of [undefined] it throws. *)
Definition member {A : Type} (x : option A) : M A :=
  match x with
  | Some a => ret a
  | None => throw (TypeError "Cannot read properties of undefined")
  end.

Definition isSome {A : Type} (x : option A) : bool :=
  match x with
  | Some _ => true
  | None => false
  end.

Definition live : M Document := gets (fun s => document (window s)).

Definition write (f : node -> node) (element : path) : M unit :=
  modify (withWindow (fun w => setDocument (update f element (document w)) w)).

(** The callback of [elements.forEach] in the text loop. *)
Definition copyText (response : Document) (sel : selector)
  (element : path * node) (key : nat) : M unit :=
  let found := querySelectorAll response sel in
  if negb (Nat.eqb (length found) 0) && isSome (nth_error found key)
  then
    f <- member (nth_error found key) ;;
    write (setTextContent (DOM.textContent (snd f))) (fst element)
  else ret tt.

(** The callback of [elements.forEach] in the attribute loop. *)
Definition copyAttribute (response : Document) (en : AttributeEntry)
  (element : path * node) (key : nat) : M unit :=
  let found := querySelectorAll response (entry_selector en) in
  if negb (Nat.eqb (length found) 0) && isSome (nth_error found key)
  then
    f <- member (nth_error found key) ;;
    let v := nodeAttribute (snd f) (entry_attribute en) in
    write (mapElement (setAttribute (entry_attribute en) (toString v)))
          (fst element)
  else ret tt.

(** One turn of the loop over [this.replace.textContent]. *)
Definition replaceText (response : Document) (sel : selector) (i : nat) : M unit :=
  d <- live ;;
  forEach (copyText response sel) 0 (querySelectorAll d sel).

(** One turn of the loop over [this.replace.attribute]. *)
Definition replaceAttribute (response : Document) (en : AttributeEntry) (i : nat)
  : M unit :=
  d <- live ;;
  forEach (copyAttribute response en) 0 (querySelectorAll d (entry_selector en)).

(** Both loops. *)
Definition replaceFields (response : Document) : M unit :=
  this <- gets pjax ;;
  forEach (replaceText response) 0 (textContent (replace this)) ;;
  forEach (replaceAttribute response) 0 (attribute (replace this)).

(** [currentPage.parentNode.replaceChild(newPage, currentPage)]: the node
    [newPage] leaves the fetched document and takes the place of
    [currentPage].  The result is the fetched document as it is left. *)
Definition replaceContent (response : Document) : M Document :=
  this <- gets pjax ;;
  let newPage := querySelector response (container this) in
  d <- live ;;
  let currentPage := querySelector d (container this) in
  match currentPage with
  | None => throw (TypeError "Cannot read properties of null (reading 'parentNode')")
  | Some cur =>
      match newPage with
      | None => throw (TypeError "Failed to execute 'replaceChild' on 'Node'")
      | Some new =>
          write (fun _ => snd new) (fst cur) ;;
          ret (remove (fst new) response)
      end
  end.

Definition scriptSelector : selector := mkSelector [] [Type_ "script"].

(** The callback of [scripts.forEach]: a new script element gets the text,
    is appended to [document.head], which evaluates a text that is not
    empty, and is removed again. *)
Definition runScript (code : path * node) (key : nat) : M unit :=
  d <- live ;;
  match head d with
  | None => throw (TypeError "Cannot read properties of null (reading 'appendChild')")
  | Some _ =>
      let text := DOM.textContent (snd code) in
      if String.eqb text "" then ret tt
      else modify (fun s => emit (Evaluated text) (withPage (evalScript text) s))
  end.

Definition executeScripts (response : Document) : M unit :=
  this <- gets pjax ;;
  forEach runScript 0
    (querySelectorAll response (descendant (container this) scriptSelector)).

Definition request (url : string) : M unit :=
  modify (withWindow (send url)).

(** Calling what a property holds. *)
Definition callHandler (h : handler) (this : receiver) : M unit :=
  match h with
  | ExecQueue => execQueue this
  | PopstateArrow =>
      url <- gets (fun s => location (window s)) ;;
      request url
  end.

(** The listener [request] adds for the [load] event of its XHR, run with
    the parsed document the browser delivers. *)
Definition load (response : Document) : M unit :=
  replaceFields response ;;
  this <- gets pjax ;;
  let response1 :=
    addLinkEvent
      (querySelectorAll response (descendant (container this) (links this)))
      response in
  response2 <- replaceContent response1 ;;
  executeScripts response2 ;;
  this' <- gets pjax ;;
  match afterLoad this' with
  | Some h => callHandler h ThisEngine
  | None => ret tt
  end.

(** The click listener of [addLinkEvent], for a target whose [href] is
    [href]. *)
Definition linkClick (href : string) : M unit :=
  request href ;;
  modify (withWindow (pushState href)).

(** *** setup *)

Definition setup : M unit :=
  w <- gets window ;;
  if pushStateSupported w
  then
    this <- gets pjax ;;
    modify (withWindow (fun w' =>
      setDocument
        (addLinkEvent (querySelectorAll (document w') (links this)) (document w'))
        w')) ;;
    modify (withWindow (setOnpopstate PopstateArrow)) ;;
    execQueue ThisEngine
  else ret tt.

(** *** The page's life

    What happens to the engine: its methods are called by the page's
    scripts, its handlers by the browser.  An error a handler lets escape
    is reported by the browser and the next task runs. *)
Inductive action :=
| CallSetup
| CallOnload (callback : value)
| WindowLoad                      (* the window's load event *)
| PopState                        (* back or forward *)
| Click (href : string)           (* a click on an intercepted link *)
| XhrLoad (response : Document).  (* a request completes *)

Definition perform (a : action) : M unit :=
  match a with
  | CallSetup => setup
  | CallOnload callback => onload callback
  | WindowLoad =>
      w <- gets window ;;
      match onload_ w with
      | Some h => callHandler h ThisWindow
      | None => ret tt
      end
  | PopState =>
      w <- gets window ;;
      match onpopstate w with
      | Some h => callHandler h ThisWindow
      | None => ret tt
      end
  | Click href => linkClick href
  | XhrLoad response => load response
  end.

Definition run (l : list action) (s : State) : State :=
  fold_left (fun s' a => snd (perform a s')) l s.

(** [onload] called with each value of [l] in turn. *)
Fixpoint registerAll (l : list value) (s : State) : State :=
  match l with
  | [] => s
  | v :: l' => registerAll l' (snd (onload v s))
  end.

(** *** Frame conditions

    [stable R m]: whatever the outcome of [m], the states before and after
    are related by [R]. *)
Definition stable {A : Type} (R : State -> State -> Prop) (m : M A) : Prop :=
  forall s, R s (snd (m s)).

(** The instance is untouched. *)
Definition sameEngine (s s' : State) : Prop := pjax s' = pjax s.

(** Nothing was pushed on the history and the location is the same. *)
Definition sameHistory (s s' : State) : Prop :=
  pushed (window s') = pushed (window s) /\
  location (window s') = location (window s).

(** The configuration is the same and the queue has only grown. *)
Definition engineGrows (s s' : State) : Prop :=
  container (pjax s') = container (pjax s) /\
  links (pjax s') = links (pjax s) /\
  replace (pjax s') = replace (pjax s) /\
  exists more, queue (pjax s') = queue (pjax s) ++ more.

(** Only the window has changed. *)
Definition onlyWindow (s s' : State) : Prop :=
  pjax s' = pjax s /\ page s' = page s /\ trace s' = trace s.

(** A relation that ignores the page and the trace holds across a call,
    a script and a log line; one that ignores the document, across a
    write; one that ignores the requests, across [request]. *)
Definition ignoresPage (R : State -> State -> Prop) : Prop :=
  forall s u t, R s (mkState (window s) (pjax s) u t).

Definition ignoresDocument (R : State -> State -> Prop) : Prop :=
  forall s d, R s (withWindow (setDocument d) s).

Definition ignoresSent (R : State -> State -> Prop) : Prop :=
  forall s url, R s (withWindow (send url) s).

End Engine.

Arguments window {U} s.
Arguments pjax {U} s.
Arguments page {U} s.
Arguments trace {U} s.
Arguments mkState {U} window pjax page trace.

(** *** Reading a trace *)

Definition functionsOf (q : list value) : list nat :=
  flat_map (fun v => match v with Function f => [f] | _ => [] end) q.

Definition calls (t : list event) : list nat :=
  flat_map (fun ev => match ev with Called f => [f] | _ => [] end) t.

Definition evaluations (t : list event) : list string :=
  flat_map (fun ev => match ev with Evaluated text => [text] | _ => [] end) t.

(** The statements at the end of the file: the global instance is built
    with the defaults, then [pjax.replace.textContent.push('h1')]. *)
Definition globalInstance : Engine :=
  let pjax := constructor None None None in
  setReplace
    (mkReplace (textContent (replace pjax) ++ [mkSelector [] [Type_ "h1"]])
               (attribute (replace pjax)))
    pjax.

End PJAX.

(** ** A concrete page

    The documents of the scenarios, inside a complete HTML skeleton, and a
    page whose only global is [window.__x]. *)

Module Scenario.
Import DOM JS PJAX.

Definition el (tag : string) (attrs : list (string * string)) (cs : list node)
  : node :=
  Elem (mkElement tag attrs 0) cs.

Definition html (headNodes bodyNodes : list node) : Document :=
  [el "html" [] [el "head" [] headNodes; el "body" [] bodyNodes]].

(** [window.__x]: [None] while it is undefined. *)
Definition Page := option Z.

(** Function 13 throws, every other function returns. *)
Definition call (f : nat) (u : Page) : Page * option exn :=
  (u, if Nat.eqb f 13 then Some (Thrown (Str "boom")) else None).

Definition evalScript (text : string) (u : Page) : Page :=
  if String.eqb text "window.__x=1" then Some 1%Z else u.

Definition freshWindow (d : Document) : Window :=
  mkWindow d "https://example.org/a" true [] None None None [].

Definition start (d : Document) (this : Engine) : State Page :=
  mkState (freshWindow d) this None [].

(** Container [A], fetched container [B] with an inline script. *)
Definition liveA : Document :=
  html [el "title" [] [Text "Old"]]
       [el "div" [("class", "body")] [Text "A"]].

Definition fetchedB : Document :=
  html [el "title" [] [Text "New"]]
       [el "div" [("class", "body")]
           [Text "B"; el "script" [] [Text "window.__x=1"]]].




Definition liveNoContainer : Document :=
  html [el "title" [] [Text "Old"]]
       [el "div" [("class", "main")] [Text "A"]].



Definition engine : Engine := constructor None None None.

Definition titleSelector : selector := mkSelector [] [Type_ "title"].

(** Three callbacks registered on a fresh page; the second one throws. *)
Definition registered : State Page :=
  registerAll Page [Function 1; Function 13; Function 2] (start liveA engine).

End Scenario.

(** ** Helpers for reading documents and traces *)

Module Handles.
Import DOM JS PJAX.

Definition path_eq_dec : forall p q : path, {p = q} + {p <> q} :=
  list_eq_dec Nat.eq_dec.

(** Is [p] the path of an entry of the list? *)
Definition pathIn (p : path) (l : NodeList) : bool :=
  if in_dec path_eq_dec p (map fst l) then true else false.

(** The texts [scripts.forEach] gets evaluated: those that are not
    empty. *)
Definition scriptTexts (scripts : NodeList) : list string :=
  filter (fun t => negb (String.eqb t ""))
         (map (fun code => DOM.textContent (snd code)) scripts).

(** The document is the same. *)
Definition sameDocument {U : Type} (s s' : State U) : Prop :=
  document (window s') = document (window s).

End Handles.

(** ** The first version of the engine: the object literal [pjax]

    The first document of the file, taken on its own: [window.pjax] is
    the object literal, its queue is the object [pjax.funQueue]. *)

Module Legacy.
Import DOM JS.

(** *** Objects as the queue uses them

    The own properties of [pjax.funQueue], in creation order.  A key is a
    string; the keys that are array indices (canonical decimal numerals
    below 2^32 - 1) are enumerated first, in ascending order, the others
    after them in creation order. *)
Definition object := list (string * value).

Definition decimal (n : N) : string := NilZero.string_of_uint (N.to_uint n).

Definition arrayIndex (key : string) : option N :=
  match NilZero.uint_of_string key with
  | Some d =>
      let n := N.of_uint d in
      if String.eqb (decimal n) key && N.ltb n 4294967295 then Some n else None
  | None => None
  end.

(** ToPropertyKey of the number or the string [onload] was given.  A
    number is an integer that prints without an exponent. *)
Definition propertyKey (v : value) : string :=
  match v with
  | Number z => NilZero.string_of_int (Z.to_int z)
  | Str s => s
  | _ => ""
  end.

Fixpoint get (key : string) (o : object) : option value :=
  match o with
  | [] => None
  | (k, v) :: o' => if String.eqb k key then Some v else get key o'
  end.

Fixpoint put (key : string) (v : value) (o : object) : object :=
  match o with
  | [] => [(key, v)]
  | (k, w) :: o' =>
      if String.eqb k key then (k, v) :: o' else (k, w) :: put key v o'
  end.

(** [o[key] = v] for a [v] that is a function, as [onload] stores: the key
    [__proto__] is an accessor that swaps the prototype and creates no
    property. *)
Definition assign (key : string) (v : value) (o : object) : object :=
  if String.eqb key "__proto__" then o else put key v o.

Fixpoint insertIndex (x : N * value) (l : list (N * value)) : list (N * value) :=
  match l with
  | [] => [x]
  | y :: l' => if N.leb (fst x) (fst y) then x :: l else y :: insertIndex x l'
  end.

Definition indexEntries (o : object) : list (N * value) :=
  flat_map (fun kv => match arrayIndex (fst kv) with
                      | Some n => [(n, snd kv)]
                      | None => []
                      end) o.

Definition nameEntries (o : object) : object :=
  filter (fun kv => match arrayIndex (fst kv) with
                    | Some _ => false
                    | None => true
                    end) o.

(** The properties in the order [for ... in] visits them. *)
Definition enumerate (o : object) : object :=
  map (fun nv => (decimal (fst nv), snd nv))
      (fold_right insertIndex [] (indexEntries o)) ++
  nameEntries o.

(** *** The state *)

Inductive event :=
| Called (f : nat)
| Logged (e : exn)
| Evaluated (text : string).

Record Engine := mkEngine {
  container : selector;
  funQueue : object;
  afterLoad : option PJAX.handler
}.

(** The object as the file leaves it. *)
Definition initial : Engine := mkEngine (mkSelector [] [Class "body"]) [] None.

Section Engine.

(** A queued function is called without arguments, by [call]; a function
    stored under the key [hasOwnProperty] is called with a key, by [test],
    which gives the new page and either what the call threw or whether its
    result is truthy. *)
Variable U : Type.
Variable call : nat -> U -> U * option exn.
Variable test : nat -> string -> U -> U * (exn + bool).
Variable evalScript : string -> U -> U.

Record State := mkState {
  window : PJAX.Window;
  windowResponse : option Document;  (* window.response; the source never defines it *)
  pjax : Engine;
  page : U;
  trace : list event
}.

Definition M (A : Type) : Type := State -> completion A * State.

Definition ret {A : Type} (a : A) : M A := fun s => (Normal a, s).

Definition bind {A B : Type} (m : M A) (k : A -> M B) : M B :=
  fun s =>
    match m s with
    | (Normal a, s') => k a s'
    | (Throw e, s') => (Throw e, s')
    end.

Definition throw {A : Type} (e : exn) : M A := fun s => (Throw e, s).

Definition tryCatch {A : Type} (m : M A) (h : exn -> M A) : M A :=
  fun s =>
    match m s with
    | (Normal a, s') => (Normal a, s')
    | (Throw e, s') => h e s'
    end.

Notation "x <- m ;; k" := (bind m (fun x => k))
  (at level 61, m at next level, right associativity).
Notation "m ;; k" := (bind m (fun _ => k))
  (at level 61, right associativity).

Definition gets {A : Type} (f : State -> A) : M A := fun s => (Normal (f s), s).
Definition modify (f : State -> State) : M unit := fun s => (Normal tt, f s).

Fixpoint forEach {A : Type} (f : A -> nat -> M unit) (key : nat) (l : list A)
  : M unit :=
  match l with
  | [] => ret tt
  | x :: l' => f x key ;; forEach f (S key) l'
  end.

Definition withWindow (f : PJAX.Window -> PJAX.Window) (s : State) : State :=
  mkState (f (window s)) (windowResponse s) (pjax s) (page s) (trace s).
Definition withQueue (f : object -> object) (s : State) : State :=
  mkState (window s) (windowResponse s)
          (mkEngine (container (pjax s)) (f (funQueue (pjax s))) (afterLoad (pjax s)))
          (page s) (trace s).
Definition setAfterLoad (h : PJAX.handler) (s : State) : State :=
  mkState (window s) (windowResponse s)
          (mkEngine (container (pjax s)) (funQueue (pjax s)) (Some h))
          (page s) (trace s).
Definition withPage (f : U -> U) (s : State) : State :=
  mkState (window s) (windowResponse s) (pjax s) (f (page s)) (trace s).
Definition emit (ev : event) (s : State) : State :=
  mkState (window s) (windowResponse s) (pjax s) (page s) (trace s ++ [ev]).

Definition live : M Document := gets (fun s => PJAX.document (window s)).

Definition write (f : node -> node) (element : path) : M unit :=
  modify (withWindow (fun w =>
    PJAX.setDocument (update f element (PJAX.document w)) w)).

Definition member {A : Type} (x : option A) : M A :=
  match x with
  | Some a => ret a
  | None => throw (TypeError "Cannot read properties of undefined")
  end.

(** *** pjax.setup *)

Definition pjaxLink : selector := mkSelector [] [Class "pjax-link"].

Definition request (url : string) : M unit :=
  modify (withWindow (PJAX.send url)).

Definition setup : M unit :=
  w <- gets window ;;
  if PJAX.pushStateSupported w
  then
    modify (withWindow (fun w' =>
      PJAX.setDocument
        (PJAX.addLinkEvent (querySelectorAll (PJAX.document w') pjaxLink)
                           (PJAX.document w'))
        w')) ;;
    modify (withWindow (PJAX.setOnpopstate PJAX.PopstateArrow))
  else ret tt.

(** The click listener, for a target of tag name [tag] (lower case, as
    [toLowerCase] leaves it) whose [href] is [href]. *)
Definition linkClick (tag href : string) : M unit :=
  if String.eqb tag "a"
  then request href ;; modify (withWindow (PJAX.pushState href))
  else ret tt.

(** *** pjax.execQueue *)

Definition invoke (func : value) : M unit :=
  fun s =>
    match func with
    | Function f =>
        let (u, r) := call f (page s) in
        let s' := emit (Called f) (withPage (fun _ => u) s) in
        match r with
        | None => (Normal tt, s')
        | Some e => (Throw e, s')
        end
    | _ => (Throw (TypeError "queue[funcName] is not a function"), s)
    end.

(** [queue.hasOwnProperty(funcName)]: the method of [Object.prototype],
    unless the queue has a property of that name, which is then what gets
    called. *)
Definition hasOwnProperty (funcName : string) : M bool :=
  fun s =>
    match get "hasOwnProperty" (funQueue (pjax s)) with
    | None => (Normal (PJAX.isSome (get funcName (funQueue (pjax s)))), s)
    | Some (Function f) =>
        let (u, r) := test f funcName (page s) in
        let s' := emit (Called f) (withPage (fun _ => u) s) in
        match r with
        | inl e => (Throw e, s')
        | inr b => (Normal b, s')
        end
    | Some _ => (Throw (TypeError "queue.hasOwnProperty is not a function"), s)
    end.

(** The body of the [for ... in] loop, for one property. *)
Definition execEntry (entry : string * value) (key : nat) : M unit :=
  own <- hasOwnProperty (fst entry) ;;
  if own
  then
    if String.eqb (typeof (snd entry)) "function"
    then tryCatch (invoke (snd entry)) (fun e => modify (emit (Logged e)))
    else ret tt
  else ret tt.

Definition execQueue : M unit :=
  queue <- gets (fun s => funQueue (pjax s)) ;;
  forEach execEntry 0 (enumerate queue).

(** *** pjax.onload *)

Definition onload (callback func : value) : M unit :=
  (if String.eqb (typeof callback) "function"
   then
     queue <- gets (fun s => funQueue (pjax s)) ;;
     modify (withQueue (assign (decimal (N.of_nat (length queue))) callback))
   else ret tt) ;;
  (if (String.eqb (typeof callback) "number" || String.eqb (typeof callback) "string")
      && String.eqb (typeof func) "function"
   then modify (withQueue (assign (propertyKey callback) func))
   else ret tt) ;;
  modify (withWindow (PJAX.setOnload PJAX.ExecQueue)) ;;
  modify (setAfterLoad PJAX.ExecQueue).

(** *** pjax.request *)

Definition selectors : list selector :=
  [ mkSelector [] [Type_ "title"];
    mkSelector [[Class "header-title"]] [Type_ "h1"] ].

Definition attrs : list PJAX.AttributeEntry :=
  [ PJAX.mkEntry (mkSelector [] [Type_ "meta"; AttrSuffix "name" "description"])
                 "content" ].

(** [this.response] inside the callbacks of [els.forEach]: they are plain
    functions called without a receiver, so [this] is the global object
    and the property read is [window.response]. *)
Definition undefinedResponse : exn :=
  TypeError "Cannot read properties of undefined (reading 'querySelectorAll')".

Definition thisResponse : M Document :=
  r <- gets windowResponse ;;
  match r with
  | Some d => ret d
  | None => throw undefinedResponse
  end.

Definition copyText (sel : selector) (el : path * node) (key : nat) : M unit :=
  r <- thisResponse ;;
  f <- member (nth_error (querySelectorAll r sel) key) ;;
  write (setTextContent (DOM.textContent (snd f))) (fst el).

Definition copyAttribute (en : PJAX.AttributeEntry) (el : path * node) (key : nat)
  : M unit :=
  r <- thisResponse ;;
  f <- member (nth_error (querySelectorAll r (PJAX.entry_selector en)) key) ;;
  write (mapElement
           (setAttribute (PJAX.entry_attribute en)
              (toString (nodeAttribute (snd f) (PJAX.entry_attribute en)))))
        (fst el).

Definition replaceText (sel : selector) (i : nat) : M unit :=
  d <- live ;;
  forEach (copyText sel) 0 (querySelectorAll d sel).

Definition replaceAttribute (en : PJAX.AttributeEntry) (i : nat) : M unit :=
  d <- live ;;
  forEach (copyAttribute en) 0 (querySelectorAll d (PJAX.entry_selector en)).

Definition runScript (code : path * node) (key : nat) : M unit :=
  d <- live ;;
  match head d with
  | None => throw (TypeError "Cannot read properties of null (reading 'appendChild')")
  | Some _ =>
      let text := DOM.textContent (snd code) in
      if String.eqb text "" then ret tt
      else modify (fun s => emit (Evaluated text) (withPage (evalScript text) s))
  end.

Definition callHandler (h : PJAX.handler) : M unit :=
  match h with
  | PJAX.ExecQueue => execQueue
  | PJAX.PopstateArrow =>
      url <- gets (fun s => PJAX.location (window s)) ;;
      request url
  end.

(** The listener of the [load] event.  Here [this] is the request, so
    [this.response] is the fetched document. *)
Definition load (response : Document) : M unit :=
  forEach replaceText 0 selectors ;;
  forEach replaceAttribute 0 attrs ;;
  self <- gets pjax ;;
  let scripts :=
    querySelectorAll response (descendant (container self) PJAX.scriptSelector) in
  let newPage := querySelector response (container self) in
  d <- live ;;
  let currentPage := querySelector d (container self) in
  match currentPage with
  | None => throw (TypeError "Cannot read properties of null (reading 'parentNode')")
  | Some cur =>
      match newPage with
      | None => throw (TypeError "Failed to execute 'replaceChild' on 'Node'")
      | Some new => write (fun _ => snd new) (fst cur)
      end
  end ;;
  forEach runScript 0 scripts ;;
  self' <- gets pjax ;;
  match afterLoad self' with
  | Some h => callHandler h
  | None => ret tt
  end.

(** *** The page's life *)

Inductive action :=
| CallSetup
| CallOnload (callback func : value)
| WindowLoad
| PopState
| Click (tag href : string)
| XhrLoad (response : Document).

Definition perform (a : action) : M unit :=
  match a with
  | CallSetup => setup
  | CallOnload callback func => onload callback func
  | WindowLoad =>
      w <- gets window ;;
      match PJAX.onload_ w with
      | Some h => callHandler h
      | None => ret tt
      end
  | PopState =>
      w <- gets window ;;
      match PJAX.onpopstate w with
      | Some h => callHandler h
      | None => ret tt
      end
  | Click tag href => linkClick tag href
  | XhrLoad response => load response
  end.

Definition run (l : list action) (s : State) : State :=
  fold_left (fun s' a => snd (perform a s')) l s.

End Engine.

Arguments window {U} s.
Arguments windowResponse {U} s.
Arguments pjax {U} s.
Arguments page {U} s.
Arguments trace {U} s.
Arguments mkState {U} window windowResponse pjax page trace.

(** The queue that registrations without a key build from nothing: the
    functions under the keys "0", "1", ... from [i] on. *)
Fixpoint numbered (i : nat) (fs : list nat) : object :=
  match fs with
  | [] => []
  | f :: fs' => (decimal (N.of_nat i), Function f) :: numbered (S i) fs'
  end.

(** [pjax.onload(f)] for each function of the list. *)
Definition registrations (fs : list nat) : list action :=
  map (fun f => CallOnload (Function f) Undefined) fs.

(** Nothing but the page and the trace has changed, and no script was
    evaluated. *)
Definition onlyCalls {U : Type} (s s' : State U) : Prop :=
  window s' = window s /\ windowResponse s' = windowResponse s /\
  pjax s' = pjax s /\
  flat_map (fun ev => match ev with Evaluated text => [text] | _ => [] end)
           (trace s') =
  flat_map (fun ev => match ev with Evaluated text => [text] | _ => [] end)
           (trace s).

Definition functionsOf (o : object) : list nat :=
  flat_map (fun kv => match snd kv with Function f => [f] | _ => [] end) o.

Definition calls (t : list event) : list nat :=
  flat_map (fun ev => match ev with Called f => [f] | _ => [] end) t.

Definition evaluations (t : list event) : list string :=
  flat_map (fun ev => match ev with Evaluated text => [text] | _ => [] end) t.

End Legacy.

(** ** More concrete pages *)

Module MoreScenario.
Import DOM JS PJAX Scenario.

(** A page whose container holds a link, and the document fetched for
    it, whose container holds another one. *)
Definition linkTo (href text : string) : node :=
  el "a" [("class", "pjax-link"); ("href", href)] [Text text].

Definition liveLink : Document :=
  html [el "title" [] [Text "Old"]]
       [el "div" [("class", "body")] [linkTo "/b" "B"]].

Definition fetchedLink : Document :=
  html [el "title" [] [Text "New"]]
       [el "div" [("class", "body")] [Text "B"; linkTo "/a" "A"]].

(** A page with a head and a container, and no title. *)
Definition liveBare : Document :=
  html [] [el "div" [("class", "body")] [Text "A"]].

(** The first version on a fresh page; no queued function is stored
    under the key [hasOwnProperty], so [test] is never consulted. *)
Definition test (f : nat) (key : string) (u : Page) : Page * (exn + bool) :=
  (u, inr true).

Definition legacyStart (d : Document) : Legacy.State Page :=
  Legacy.mkState (freshWindow d) None Legacy.initial None [].

(** Three functions registered without a key; the second one throws. *)
Definition legacyRegistered (d : Document) : Legacy.State Page :=
  Legacy.run Page call test evalScript (Legacy.registrations [1; 13; 2])
             (legacyStart d).

End MoreScenario.

(** * Properties *)

Import DOM JS PJAX.

(** ** Paths, lookups and updates *)

Section Trees.

Lemma nth_error_mapAt {A : Type} (f : A -> A) (l : list A) :
  forall i j,
    nth_error (mapAt i f l) j =
    if Nat.eqb i j then option_map f (nth_error l j) else nth_error l j.
Proof.
  induction l as [|x l IH]; intros i j; simpl.
  - destruct j; destruct (Nat.eqb i _); reflexivity.
  - destruct i, j; simpl; try reflexivity. apply IH.
Qed.


Lemma mapAt_id {A : Type} (f : A -> A) (l : list A) :
  forall i, (forall x, nth_error l i = Some x -> f x = x) -> mapAt i f l = l.
Proof.
  induction l as [|x l IH]; intros i Hf; simpl; [reflexivity|].
  destruct i; simpl in *.
  - now rewrite Hf.
  - now rewrite IH.
Qed.

Lemma precedes_irrefl (p : path) : ~ precedes p p.
Proof. induction p; simpl; [tauto | intros [Hlt | [_ Hp]]; [lia | tauto]]. Qed.




(** *** At the level of one node *)

Lemma nodeAt_app (n : node) (p q : path) :
  nodeAt n (p ++ q) =
  match nodeAt n p with
  | Some m => nodeAt m q
  | None => None
  end.
Proof.
  revert n. induction p as [|i p IH]; intros n; simpl; [reflexivity|].
  destruct n as [s|e cs]; [reflexivity|].
  destruct (nth_error cs i); [apply IH | reflexivity].
Qed.


Lemma nodeAt_updateNode_same (f : node -> node) (p : path) :
  forall n, nodeAt (updateNode f p n) p = option_map f (nodeAt n p).
Proof.
  induction p as [|i p IH]; intros n; simpl; [reflexivity|].
  destruct n as [s|e cs]; simpl; [reflexivity|].
  rewrite nth_error_mapAt, Nat.eqb_refl.
  destruct (nth_error cs i); simpl; [apply IH | reflexivity].
Qed.



(** The element record at [p] after a change of the element record at
    [q]. *)
Lemma nodeAt_mapElement (g : element -> element) (q : path) :
  forall p n,
    p <> q ->
    match nodeAt (updateNode (mapElement g) q n) p, nodeAt n p with
    | Some (Elem e1 _), Some (Elem e2 _) => e1 = e2
    | Some (Text s1), Some (Text s2) => s1 = s2
    | None, None => True
    | _, _ => False
    end.
Proof.
  induction q as [|j q IH]; intros p n Hpq.
  - destruct p as [|i p]; [contradiction|]. simpl.
    destruct n as [s|e cs]; simpl; [exact I|].
    destruct (nth_error cs i) as [c|]; [|exact I].
    destruct (nodeAt c p) as [[s|e' cs']|]; auto.
  - destruct n as [s|e cs]; simpl.
    + destruct p; simpl; auto.
    + destruct p as [|i p]; simpl; [reflexivity|].
      rewrite nth_error_mapAt. destruct (Nat.eqb_spec j i) as [->|Hji].
      * destruct (nth_error cs i) as [c|]; simpl; [|exact I].
        apply IH. congruence.
      * destruct (nth_error cs i) as [c|]; [|exact I].
        destruct (nodeAt c p) as [[s|e' cs']|]; auto.
Qed.

(** *** At the level of the document *)

Lemma lookup_root (d : Document) (p : path) :
  p <> [] -> lookup d p = nodeAt (Elem rootElement d) p.
Proof. destruct p; [contradiction | reflexivity]. Qed.

Lemma update_root (f : node -> node) (d : Document) (p : path) :
  p <> [] -> Elem rootElement (update f p d) = updateNode f p (Elem rootElement d).
Proof. destruct p; [contradiction | reflexivity]. Qed.

Lemma lookup_update_same (f : node -> node) (d : Document) (p : path) :
  lookup (update f p d) p = option_map f (lookup d p).
Proof.
  destruct p as [|i p]; [reflexivity|].
  rewrite !lookup_root, update_root by discriminate.
  apply nodeAt_updateNode_same.
Qed.



Lemma elementAt_update_other (g : element -> element) (d : Document) (p q : path) :
  p <> q ->
  elementAt (update (mapElement g) q d) p = elementAt d p.
Proof.
  intros Hpq. unfold elementAt.
  destruct p as [|i p]; [reflexivity|].
  destruct q as [|j q]; [reflexivity|].
  rewrite !lookup_root, update_root by discriminate.
  pose proof (nodeAt_mapElement g (j :: q) (i :: p) (Elem rootElement d) Hpq) as Hm.
  destruct (nodeAt (updateNode _ _ _) _) as [[s1|e1 c1]|];
    destruct (nodeAt (Elem rootElement d) _) as [[s2|e2 c2]|];
    try contradiction; congruence.
Qed.

Lemma elementAt_update_same (g : element -> element) (d : Document) (p : path) :
  elementAt (update (mapElement g) p d) p = option_map g (elementAt d p).
Proof.
  unfold elementAt. rewrite lookup_update_same.
  destruct (lookup d p) as [[s|e cs]|]; reflexivity.
Qed.

(** *** What querySelectorAll returns *)

Lemma select_Elem (sel : selector) (ancs : list element) (e : element)
  (cs : list node) :
  select sel ancs (Elem e cs) =
  (if matches sel ancs e then [([], Elem e cs)] else []) ++
  selectChildren sel (ancs ++ [e]) 0 cs.
Proof.
  simpl. f_equal. generalize 0.
  induction cs as [|c cs IH]; intros i; simpl; [reflexivity|].
  f_equal. apply IH.
Qed.

Lemma selectChildren_In (sel : selector) (ancs : list element) (cs : list node) :
  forall i p m,
    In (p, m) (selectChildren sel ancs i cs) ->
    exists k c p',
      p = (i + k) :: p' /\ nth_error cs k = Some c /\
      In (p', m) (select sel ancs c).
Proof.
  induction cs as [|c cs IH]; intros i p m Hin; simpl in Hin; [contradiction|].
  apply in_app_or in Hin. destruct Hin as [Hin | Hin].
  - apply in_map_iff in Hin. destruct Hin as ([p' m'] & [= <- <-] & Hin).
    exists 0, c, p'. rewrite Nat.add_0_r. auto.
  - destruct (IH _ _ _ Hin) as (k & c' & p' & -> & Hk & Hc).
    exists (S k), c', p'. repeat split; auto. f_equal. lia.
Qed.

(** Every entry of the list is an element of the tree, found at its
    path. *)
Lemma select_valid (n : node) :
  forall sel ancs p m,
    In (p, m) (select sel ancs n) -> nodeAt n p = Some m /\ isElement m.
Proof.
  induction n as [s|e cs IH] using node_induction; intros sel ancs p m Hin.
  - contradiction.
  - rewrite select_Elem in Hin. apply in_app_or in Hin. destruct Hin as [Hin|Hin].
    + destruct (matches sel ancs e); [|contradiction].
      destruct Hin as [[= <- <-]|[]]. split; [reflexivity|]. now exists e, cs.
    + apply selectChildren_In in Hin.
      destruct Hin as (k & c & p' & -> & Hk & Hc). simpl. rewrite Hk.
      rewrite Forall_forall in IH. apply (IH c (nth_error_In _ _ Hk) _ _ _ _ Hc).
Qed.

Lemma querySelectorAll_valid (d : Document) (sel : selector) (p : path) (m : node) :
  In (p, m) (querySelectorAll d sel) -> lookup d p = Some m /\ isElement m.
Proof.
  intros Hin. apply selectChildren_In in Hin.
  destruct Hin as (k & c & p' & -> & Hk & Hc). simpl. rewrite Hk.
  now apply select_valid in Hc.
Qed.

(** *** Document order *)

Lemma sorted_app {A : Type} (R : A -> A -> Prop) (l1 l2 : list A) :
  StronglySorted R l1 -> StronglySorted R l2 ->
  (forall x y, In x l1 -> In y l2 -> R x y) ->
  StronglySorted R (l1 ++ l2).
Proof.
  induction l1 as [|a l1 IH]; intros H1 H2 H12; simpl; [exact H2|].
  apply StronglySorted_inv in H1. destruct H1 as [H1 Ha].
  constructor.
  - apply IH; auto. intros x y Hx Hy. apply H12; simpl; auto.
  - apply Forall_app. split; [exact Ha|].
    apply Forall_forall. intros y Hy. apply H12; simpl; auto.
Qed.


Lemma sorted_below (i : nat) (l : list path) :
  StronglySorted precedes l -> StronglySorted precedes (map (cons i) l).
Proof.
  induction 1 as [|a l Hs IH Ha]; simpl; constructor; auto.
  rewrite Forall_map. eapply Forall_impl; [|exact Ha].
  intros b Hb. simpl. auto.
Qed.

Lemma map_fst_below (i : nat) (l : NodeList) :
  map fst (map (below i) l) = map (cons i) (map fst l).
Proof. rewrite !map_map. reflexivity. Qed.

Lemma selectChildren_sorted (sel : selector) (ancs : list element)
  (cs : list node) :
  Forall (fun c => forall sel ancs,
            StronglySorted precedes (map fst (select sel ancs c))) cs ->
  forall i, StronglySorted precedes (map fst (selectChildren sel ancs i cs)).
Proof.
  induction 1 as [|c cs Hc Hcs IH]; intros i; simpl; [constructor|].
  rewrite map_app, map_fst_below. apply sorted_app.
  - apply sorted_below, Hc.
  - apply IH.
  - intros x y Hx Hy.
    apply in_map_iff in Hx. destruct Hx as (x' & <- & _).
    apply in_map_iff in Hy. destruct Hy as ([p m] & <- & Hy).
    apply selectChildren_In in Hy. destruct Hy as (k & c' & p' & -> & _).
    simpl. left. lia.
Qed.

Lemma select_sorted (n : node) :
  forall sel ancs, StronglySorted precedes (map fst (select sel ancs n)).
Proof.
  induction n as [s|e cs IH] using node_induction; intros sel ancs.
  - constructor.
  - rewrite select_Elem, map_app. apply sorted_app.
    + destruct (matches sel ancs e); simpl; repeat constructor.
    + now apply selectChildren_sorted.
    + intros x y Hx Hy. destruct (matches sel ancs e); [|contradiction].
      destruct Hx as [<-|[]].
      apply in_map_iff in Hy. destruct Hy as ([p m] & <- & Hy).
      apply selectChildren_In in Hy. destruct Hy as (k & c' & p' & -> & _).
      exact I.
Qed.

(** The list is in document order. *)
Lemma querySelectorAll_sorted (d : Document) (sel : selector) :
  StronglySorted precedes (map fst (querySelectorAll d sel)).
Proof.
  apply selectChildren_sorted. apply Forall_forall. intros c _.
  apply select_sorted.
Qed.


(** ** What is left of the fetched document after the swap *)

Lemma within_cons (c : compound) (cs : list compound) (a : element)
  (l : list element) :
  within (c :: cs) (a :: l) =
  if matchesCompound c a then within cs l else within (c :: cs) l.
Proof. reflexivity. Qed.

(** A chain that matches has each of its links matched by an ancestor,
    and the chain before that link by the ancestors before it. *)
Lemma within_split (cs1 : list compound) (c0 : compound) (cs2 : list compound) :
  forall ancs,
    within (cs1 ++ c0 :: cs2) ancs = true ->
    exists a1 a a2,
      ancs = a1 ++ a :: a2 /\ within cs1 a1 = true /\ matchesCompound c0 a = true.
Proof.
  induction cs1 as [|x cs1 IH]; intros ancs; simpl app.
  - induction ancs as [|b l IHl]; [discriminate|].
    rewrite within_cons. destruct (matchesCompound c0 b) eqn:Hb.
    + intros _. exists [], b, l. auto.
    + intros Hw. destruct (IHl Hw) as (a1 & a & a2 & -> & _ & Ha).
      exists (b :: a1), a, a2. auto.
  - induction ancs as [|b l IHl]; [discriminate|].
    rewrite within_cons. destruct (matchesCompound x b) eqn:Hb.
    + intros Hw. destruct (IH _ Hw) as (a1 & a & a2 & -> & H1 & Ha).
      exists (b :: a1), a, a2. rewrite within_cons, Hb. auto.
    + intros Hw. destruct (IHl Hw) as (a1 & a & a2 & -> & H1 & Ha).
      exists (b :: a1), a, a2. rewrite within_cons, Hb. auto.
Qed.

Lemma matches_descendant (c s : selector) (ancs : list element) (e : element) :
  matches (descendant c s) ancs e = true ->
  exists a1 a a2, ancs = a1 ++ a :: a2 /\ matches c a1 a = true.
Proof.
  unfold matches at 1. simpl. intros H. apply andb_prop in H. destruct H as [_ Hw].
  destruct (within_split _ _ _ _ Hw) as (a1 & a & a2 & -> & H1 & Ha).
  exists a1, a, a2. split; [reflexivity|]. unfold matches. now rewrite Ha, H1.
Qed.

Lemma selectChildren_nil (sel : selector) (ancs : list element) (cs : list node) :
  forall i,
    selectChildren sel ancs i cs = [] <->
    forall c, In c cs -> select sel ancs c = [].
Proof.
  induction cs as [|c cs IH]; intros i; simpl.
  - split; [intros _ c [] | reflexivity].
  - split.
    + intros H. apply app_eq_nil in H. destruct H as [H1 H2].
      apply map_eq_nil in H1. intros c' [<-|Hin]; [exact H1|].
      now apply (proj1 (IH (S i)) H2).
    + intros H. rewrite (H c) by now left. simpl.
      apply IH. intros c' Hin. apply H. now right.
Qed.

(** Without a match for [c] in a subtree or among its ancestors there is
    no match for [c s] in it either. *)
Lemma select_descendant_nil (c s : selector) (n : node) :
  forall ancs,
    (forall a1 a a2, ancs = a1 ++ a :: a2 -> matches c a1 a = false) ->
    select c ancs n = [] ->
    select (descendant c s) ancs n = [].
Proof.
  induction n as [t|e cs IH] using node_induction; intros ancs Hanc Hsel.
  - reflexivity.
  - rewrite select_Elem in Hsel |- *. apply app_eq_nil in Hsel.
    destruct Hsel as [He Hcs].
    assert (Hm : matches c ancs e = false)
      by (destruct (matches c ancs e); [discriminate | reflexivity]).
    destruct (matches (descendant c s) ancs e) eqn:Hd.
    + apply matches_descendant in Hd. destruct Hd as (a1 & a & a2 & E & Ha).
      rewrite (Hanc _ _ _ E) in Ha. discriminate.
    + simpl. apply selectChildren_nil. intros c' Hin.
      rewrite Forall_forall in IH. apply (IH c' Hin).
      * intros a1 a a2 E. destruct a2 as [|z a2].
        -- apply app_inj_tail in E. destruct E as [<- <-]. exact Hm.
        -- destruct (@exists_last _ (z :: a2)) as (l & y & El); [discriminate|].
           rewrite El in E. change (a1 ++ a :: l ++ [y]) with (a1 ++ (a :: l) ++ [y]) in E.
           rewrite app_assoc in E. apply app_inj_tail in E. destruct E as [E _].
           now apply (Hanc a1 a l).
      * now apply (proj1 (selectChildren_nil c (ancs ++ [e]) cs 0) Hcs).
Qed.

Lemma querySelectorAll_descendant_nil (c s : selector) (d : Document) :
  querySelectorAll d c = [] -> querySelectorAll d (descendant c s) = [].
Proof.
  unfold querySelectorAll. intros H.
  apply selectChildren_nil. intros n Hin.
  apply select_descendant_nil.
  - intros a1 a a2 E. destruct a1; discriminate.
  - now apply (proj1 (selectChildren_nil c [] d 0) H).
Qed.

(** *** Taking the only match out *)

Lemma nth_error_removeNth {A : Type} (l : list A) :
  forall k j,
    nth_error (removeNth k l) j =
    if Nat.ltb j k then nth_error l j else nth_error l (S j).
Proof.
  induction l as [|x l IH]; intros k j; simpl.
  - destruct (Nat.ltb j k); destruct j; reflexivity.
  - destruct k; simpl; [reflexivity|].
    destruct j; simpl; [reflexivity|]. rewrite IH.
    change (Nat.ltb (S j) (S k)) with (Nat.ltb j k). reflexivity.
Qed.

Lemma In_removeNth {A : Type} (l : list A) (k : nat) (x : A) :
  In x (removeNth k l) -> exists j, j <> k /\ nth_error l j = Some x.
Proof.
  intros Hin. apply In_nth_error in Hin. destruct Hin as [j Hj].
  rewrite nth_error_removeNth in Hj.
  destruct (Nat.ltb_spec j k); [exists j | exists (S j)]; split; auto; lia.
Qed.

Lemma In_mapAt {A : Type} (f : A -> A) (l : list A) (k : nat) (x : A) :
  In x (mapAt k f l) ->
  (exists j, j <> k /\ nth_error l j = Some x) \/
  (exists y, nth_error l k = Some y /\ x = f y).
Proof.
  intros Hin. apply In_nth_error in Hin. destruct Hin as [j Hj].
  rewrite nth_error_mapAt in Hj. destruct (Nat.eqb_spec k j) as [->|Hne].
  - right. destruct (nth_error l j) as [y|]; [|discriminate].
    injection Hj as <-. now exists y.
  - left. exists j. auto.
Qed.

(** A list of matches with one entry: it comes from one child, and the
    other children have none. *)
Lemma selectChildren_single (sel : selector) (ancs : list element)
  (cs : list node) :
  forall i k p n,
    selectChildren sel ancs i cs = [((i + k) :: p, n)] ->
    exists c,
      nth_error cs k = Some c /\ select sel ancs c = [(p, n)] /\
      forall j c', j <> k -> nth_error cs j = Some c' -> select sel ancs c' = [].
Proof.
  induction cs as [|c cs IH]; intros i k p n H; simpl in H; [discriminate|].
  apply app_eq_unit in H. destruct H as [[H1 H2]|[H1 H2]].
  - apply map_eq_nil in H1. destruct k as [|k].
    + exfalso. assert (Hin : In ((i + 0) :: p, n) (selectChildren sel ancs (S i) cs))
        by (rewrite H2; now left).
      apply selectChildren_In in Hin. destruct Hin as (k' & c0 & p0 & E & _).
      injection E as E0 _. lia.
    + rewrite <- Nat.add_succ_comm in H2. destruct (IH _ _ _ _ H2) as (c' & Hk & Hc & Ho).
      exists c'. split; [exact Hk|]. split; [exact Hc|].
      intros j c'' Hj Hn. destruct j as [|j]; simpl in Hn.
      * now injection Hn as <-.
      * apply (Ho j); auto.
  - destruct (select sel ancs c) as [|[p' n'] [|y l]] eqn:Hs; try discriminate.
    simpl in H1. injection H1 as E1 E2 E3.
    assert (k = 0) by lia. subst k p' n'.
    exists c. split; [reflexivity|]. split; [exact Hs|].
    intros j c' Hj Hn. destruct j as [|j]; [contradiction|]. simpl in Hn.
    apply (proj1 (selectChildren_nil sel ancs cs (S i)) H2).
    eapply nth_error_In; eauto.
Qed.

Lemma removeChildren_cons (k j : nat) (p : path) (l : list node) :
  removeChildren (k :: j :: p) l =
  mapAt k (fun c => match c with
                    | Text s => Text s
                    | Elem e cs => Elem e (removeChildren (j :: p) cs)
                    end) l.
Proof. reflexivity. Qed.

(** When the selector has one match in the forest, the forest without
    that element has none. *)
Lemma removeChildren_only_match (sel : selector) (p : path) :
  forall ancs cs i k n,
    selectChildren sel ancs i cs = [((i + k) :: p, n)] ->
    selectChildren sel ancs i (removeChildren (k :: p) cs) = [].
Proof.
  induction p as [|j p IH]; intros ancs cs i k n H;
    destruct (selectChildren_single _ _ _ _ _ _ _ H) as (c & Hk & Hc & Ho);
    apply selectChildren_nil; intros c' Hin.
  - simpl in Hin. apply In_removeNth in Hin. destruct Hin as (j & Hj & Hn).
    now apply (Ho j).
  - rewrite removeChildren_cons in Hin. apply In_mapAt in Hin.
    destruct Hin as [(j' & Hj & Hn)|(y & Hy & ->)]; [now apply (Ho j')|].
    rewrite Hk in Hy. injection Hy as <-.
    destruct c as [t|e cs']; [discriminate|].
    rewrite select_Elem in Hc |- *.
    destruct (matches sel ancs e); [discriminate|]. simpl in Hc |- *.
    apply (IH _ _ 0 j n). exact Hc.
Qed.

Lemma remove_only_match (d : Document) (sel : selector) (x : path * node) :
  querySelectorAll d sel = [x] -> querySelectorAll (remove (fst x) d) sel = [].
Proof.
  unfold querySelectorAll, remove. intros H.
  assert (Hin : In x (selectChildren sel [] 0 d)) by (rewrite H; now left).
  destruct x as [p n]. apply selectChildren_In in Hin.
  destruct Hin as (k & c & p' & -> & _). simpl fst.
  now apply (removeChildren_only_match sel p' [] d 0 k n).
Qed.

(** *** Listeners are invisible to selectors *)

Lemma matchesCompound_markup (c : compound) (e : element) :
  matchesCompound c (markupOf e) = matchesCompound c e.
Proof.
  unfold matchesCompound. induction c as [|t c IH]; simpl; [reflexivity|].
  rewrite IH. reflexivity.
Qed.

Lemma within_markup (cs : list compound) :
  forall ancs, within cs (map markupOf ancs) = within cs ancs.
Proof.
  induction cs as [|c cs IH]; intros ancs; [reflexivity|].
  induction ancs as [|a l IHl]; [reflexivity|].
  cbn [map]. rewrite !within_cons, matchesCompound_markup, IH, IHl. reflexivity.
Qed.

Lemma matches_markup (sel : selector) (ancs : list element) (e : element) :
  matches sel (map markupOf ancs) (markupOf e) = matches sel ancs e.
Proof. unfold matches. now rewrite matchesCompound_markup, within_markup. Qed.

Lemma selectChildren_markup (sel : selector) (cs : list node) :
  Forall (fun c => forall ancs,
            map fst (select sel (map markupOf ancs) (markup c)) =
            map fst (select sel ancs c)) cs ->
  forall ancs i,
    map fst (selectChildren sel (map markupOf ancs) i (map markup cs)) =
    map fst (selectChildren sel ancs i cs).
Proof.
  induction 1 as [|c cs Hc Hcs IH]; intros ancs i; simpl; [reflexivity|].
  rewrite !map_app, !map_fst_below, Hc, IH. reflexivity.
Qed.

Lemma select_markup (sel : selector) (n : node) :
  forall ancs,
    map fst (select sel (map markupOf ancs) (markup n)) =
    map fst (select sel ancs n).
Proof.
  induction n as [t|e cs IH] using node_induction; intros ancs; [reflexivity|].
  cbn [markup]. rewrite !select_Elem, !map_app, matches_markup.
  f_equal; [now destruct (matches sel ancs e)|].
  change [markupOf e] with (map markupOf [e]). rewrite <- map_app.
  now apply selectChildren_markup.
Qed.

Lemma querySelectorAll_markup (d : Document) (sel : selector) :
  map fst (querySelectorAll (map markup d) sel) = map fst (querySelectorAll d sel).
Proof.
  apply (selectChildren_markup sel d) with (ancs := []).
  apply Forall_forall. intros c _. apply select_markup.
Qed.

Lemma map_mapAt {A B : Type} (h : A -> B) (f : A -> A) (l : list A) :
  (forall x, h (f x) = h x) -> forall i, map h (mapAt i f l) = map h l.
Proof.
  intros Hf. induction l as [|x l IH]; intros i; simpl; [reflexivity|].
  destruct i; simpl; [now rewrite Hf | now rewrite IH].
Qed.

Lemma markup_updateNode (g : element -> element) (p : path) :
  (forall e, markupOf (g e) = markupOf e) ->
  forall n, markup (updateNode (mapElement g) p n) = markup n.
Proof.
  intros Hg. induction p as [|i p IH]; intros n; simpl.
  - destruct n as [t|e cs]; simpl; [reflexivity | now rewrite Hg].
  - destruct n as [t|e cs]; simpl; [reflexivity|]. f_equal.
    apply map_mapAt. exact IH.
Qed.

Lemma markup_update (g : element -> element) (p : path) (d : Document) :
  (forall e, markupOf (g e) = markupOf e) ->
  map markup (update (mapElement g) p d) = map markup d.
Proof.
  intros Hg. destruct p as [|i p]; [reflexivity|]. simpl.
  apply map_mapAt. now apply markup_updateNode.
Qed.

End Trees.

(** ** The load queue *)

Section Properties.

Variable U : Type.
Variable call : nat -> U -> U * option exn.
Variable evalScript : string -> U -> U.

Local Abbreviation execEntry := (PJAX.execEntry U call).
Local Abbreviation execQueue := (PJAX.execQueue U call).
Local Abbreviation onload := (PJAX.onload U).
Local Abbreviation forEach := (PJAX.forEach U).
Local Abbreviation M := (PJAX.M U).
Local Abbreviation stable := (PJAX.stable U).
Local Abbreviation perform := (PJAX.perform U call evalScript).
Local Abbreviation load := (PJAX.load U call evalScript).
Local Abbreviation setup := (PJAX.setup U call).
Local Abbreviation run := (PJAX.run U call evalScript).
Local Abbreviation registerAll := (PJAX.registerAll U).

Lemma typeof_function (v : value) :
  String.eqb (typeof v) "function" = true -> exists f, v = Function f.
Proof.
  destruct v; simpl; try discriminate. intros _. now exists f.
Qed.

Lemma typeof_not_function (v : value) :
  String.eqb (typeof v) "function" = false -> functionsOf [v] = [].
Proof.
  destruct v; simpl; try reflexivity. discriminate.
Qed.

Lemma calls_app (t1 t2 : list event) : calls (t1 ++ t2) = calls t1 ++ calls t2.
Proof. unfold calls. apply flat_map_app. Qed.

Lemma functionsOf_app (q1 q2 : list value) :
  functionsOf (q1 ++ q2) = functionsOf q1 ++ functionsOf q2.
Proof. unfold functionsOf. apply flat_map_app. Qed.

(** One entry: the call never escapes, and only the page and the trace
    change. *)
Lemma execEntry_spec (func : value) (key : nat) (s : State U) :
  exists s',
    execEntry func key s = (Normal tt, s') /\
    window s' = window s /\ pjax s' = pjax s /\
    exists t, trace s' = trace s ++ t /\ calls t = functionsOf [func].
Proof.
  unfold PJAX.execEntry.
  destruct (String.eqb (typeof func) "function") eqn:Hty.
  - destruct (typeof_function _ Hty) as [f ->].
    unfold tryCatch, invoke. destruct (call f (page s)) as [u [e|]] eqn:Hc.
    + eexists; split; [reflexivity|]. simpl. repeat split.
      exists [Called f; Logged e (Function f)]. split.
      * now rewrite <- app_assoc.
      * reflexivity.
    + eexists; split; [reflexivity|]. simpl. repeat split.
      exists [Called f]. split; reflexivity.
  - exists s. split; [reflexivity|]. repeat split.
    exists []. rewrite app_nil_r. split; [reflexivity|].
    symmetry. now apply typeof_not_function.
Qed.

Lemma forEach_execEntry_spec (q : list value) :
  forall (key : nat) (s : State U),
  exists s',
    forEach execEntry key q s = (Normal tt, s') /\
    window s' = window s /\ pjax s' = pjax s /\
    exists t, trace s' = trace s ++ t /\ calls t = functionsOf q.
Proof.
  induction q as [|v q IH]; intros key s.
  - exists s. split; [reflexivity|]. repeat split. exists [].
    now rewrite app_nil_r.
  - destruct (execEntry_spec v key s) as (s1 & E1 & W1 & P1 & t1 & T1 & C1).
    destruct (IH (S key) s1) as (s2 & E2 & W2 & P2 & t2 & T2 & C2).
    exists s2. split.
    + simpl. unfold bind at 1. now rewrite E1.
    + split; [congruence|]. split; [congruence|].
      exists (t1 ++ t2). split.
      * now rewrite T2, T1, app_assoc.
      * rewrite calls_app, C1, C2. change (v :: q) with ([v] ++ q).
        now rewrite functionsOf_app.
Qed.

Lemma execQueue_engine (s : State U) :
  execQueue ThisEngine s = forEach execEntry 0 (queue (pjax s)) s.
Proof. reflexivity. Qed.

(** Registration: what [onload] does to the state. *)
Lemma onload_spec (callback : value) (s : State U) :
  exists s',
    onload callback s = (Normal tt, s') /\
    queue (pjax s') =
      queue (pjax s) ++
      (if String.eqb (typeof callback) "function" then [callback] else []) /\
    trace s' = trace s /\ page s' = page s /\
    replace (pjax s') = replace (pjax s) /\
    container (pjax s') = container (pjax s) /\
    links (pjax s') = links (pjax s) /\
    document (window s') = document (window s) /\
    pushed (window s') = pushed (window s) /\
    sent (window s') = sent (window s) /\
    location (window s') = location (window s).
Proof.
  unfold PJAX.onload.
  destruct (String.eqb (typeof callback) "function");
    (eexists; split; [reflexivity|]; simpl; rewrite ?app_nil_r; repeat split).
Qed.

(** ** Frame conditions of the engine's operations *)

Section Stable.

Variable R : State U -> State U -> Prop.
Context `{PreOrder _ R}.

Lemma stable_ret {A : Type} (a : A) : stable R (ret U a).
Proof. intros s. simpl. reflexivity. Qed.

Lemma stable_throw {A : Type} (e : exn) : stable R (@throw U A e).
Proof. intros s. simpl. reflexivity. Qed.

Lemma stable_gets {A : Type} (f : State U -> A) : stable R (gets U f).
Proof. intros s. simpl. reflexivity. Qed.

Lemma stable_modify (f : State U -> State U) :
  (forall s, R s (f s)) -> stable R (modify U f).
Proof. intros Hf s. simpl. apply Hf. Qed.

Lemma stable_bind {A B : Type} (m : M A) (k : A -> M B) :
  stable R m -> (forall a, stable R (k a)) -> stable R (bind U m k).
Proof.
  intros Hm Hk s. unfold bind. specialize (Hm s).
  destruct (m s) as [[a|e] s1]; simpl in *.
  - etransitivity; [exact Hm | apply Hk].
  - exact Hm.
Qed.

Lemma stable_tryCatch {A : Type} (m : M A) (h : exn -> M A) :
  stable R m -> (forall e, stable R (h e)) -> stable R (tryCatch U m h).
Proof.
  intros Hm Hh s. unfold tryCatch. specialize (Hm s).
  destruct (m s) as [[a|e] s1]; simpl in *.
  - exact Hm.
  - etransitivity; [exact Hm | apply Hh].
Qed.

Lemma stable_forEach {A : Type} (f : A -> nat -> M unit) (l : list A) :
  (forall x key, stable R (f x key)) -> forall key, stable R (forEach f key l).
Proof.
  intros Hf. induction l as [|x l IH]; intros key; simpl.
  - apply stable_ret.
  - apply stable_bind; [apply Hf | intros _; apply IH].
Qed.

Lemma stable_member {A : Type} (x : option A) : stable R (member U x).
Proof. destruct x; [apply stable_ret | apply stable_throw]. Qed.

End Stable.

Section Frames.

Variable R : State U -> State U -> Prop.
Context `{PreOrder _ R}.
Hypothesis R_page : ignoresPage U R.
Hypothesis R_document : ignoresDocument U R.
Hypothesis R_sent : ignoresSent U R.

Ltac frame L := apply L; try exact _.

Lemma stable_execEntry (func : value) (key : nat) : stable R (execEntry func key).
Proof.
  unfold PJAX.execEntry. destruct (String.eqb (typeof func) "function").
  - frame stable_tryCatch.
    + intros s. unfold invoke. destruct func; simpl; try reflexivity.
      destruct (call f (page s)) as [u [e|]]; simpl; exact (R_page _ _ _).
    + intros e. frame stable_modify. intros s. exact (R_page _ _ _).
  - frame stable_ret.
Qed.

Lemma stable_execQueue (this : receiver) : stable R (execQueue this).
Proof.
  unfold PJAX.execQueue. frame stable_bind.
  - intros s. unfold thisQueue. destruct this; simpl; [reflexivity|].
    destruct (globalQueue (window s)); simpl; reflexivity.
  - intros q. frame stable_forEach. apply stable_execEntry.
Qed.

Lemma stable_write (f : node -> node) (element : path) :
  stable R (write U f element).
Proof. frame stable_modify. intros s. exact (R_document _ _). Qed.

Lemma stable_copyText response sel element key :
  stable R (copyText U response sel element key).
Proof.
  unfold copyText. cbv zeta.
  destruct (_ && _); [|frame stable_ret].
  frame stable_bind; [frame stable_member | intros f; apply stable_write].
Qed.

Lemma stable_copyAttribute response en element key :
  stable R (copyAttribute U response en element key).
Proof.
  unfold copyAttribute. cbv zeta.
  destruct (_ && _); [|frame stable_ret].
  frame stable_bind; [frame stable_member | intros f; apply stable_write].
Qed.

Lemma stable_replaceFields response : stable R (replaceFields U response).
Proof.
  unfold replaceFields.
  frame stable_bind; [frame stable_gets | intros this].
  frame stable_bind; [| intros _]; frame stable_forEach; intros x key.
  - unfold replaceText. frame stable_bind; [frame stable_gets | intros d].
    frame stable_forEach. intros. apply stable_copyText.
  - unfold replaceAttribute. frame stable_bind; [frame stable_gets | intros d].
    frame stable_forEach. intros. apply stable_copyAttribute.
Qed.

Lemma stable_replaceContent response : stable R (replaceContent U response).
Proof.
  unfold replaceContent.
  frame stable_bind; [frame stable_gets | intros this].
  frame stable_bind; [frame stable_gets | intros d]. cbv zeta.
  destruct (querySelector d _); [|frame stable_throw].
  destruct (querySelector response _); [|frame stable_throw].
  frame stable_bind; [apply stable_write | intros _; frame stable_ret].
Qed.

Lemma stable_executeScripts response :
  stable R (executeScripts U evalScript response).
Proof.
  unfold executeScripts.
  frame stable_bind; [frame stable_gets | intros this].
  frame stable_forEach. intros code key. unfold runScript.
  frame stable_bind; [frame stable_gets | intros d].
  destruct (head d); [|frame stable_throw]. cbv zeta.
  destruct (String.eqb _ ""); [frame stable_ret|].
  frame stable_modify. intros s. exact (R_page _ _ _).
Qed.

Lemma stable_request url : stable R (request U url).
Proof. frame stable_modify. intros s. exact (R_sent _ _). Qed.

Lemma stable_callHandler h this : stable R (callHandler U call h this).
Proof.
  destruct h; simpl.
  - apply stable_execQueue.
  - frame stable_bind; [frame stable_gets | intros url; apply stable_request].
Qed.

Lemma stable_load response : stable R (load response).
Proof.
  unfold PJAX.load.
  frame stable_bind; [apply stable_replaceFields | intros _].
  frame stable_bind; [frame stable_gets | intros this]. cbv zeta.
  frame stable_bind; [apply stable_replaceContent | intros response2].
  frame stable_bind; [apply stable_executeScripts | intros _].
  frame stable_bind; [frame stable_gets | intros this'].
  destruct (afterLoad this'); [apply stable_callHandler | frame stable_ret].
Qed.

End Frames.

(** The three relations are preorders that ignore what they should. *)

#[local] Instance sameEngine_PreOrder : PreOrder (sameEngine U).
Proof.
  split; [intros s; reflexivity | intros s1 s2 s3; unfold sameEngine; congruence].
Qed.

#[local] Instance sameHistory_PreOrder : PreOrder (sameHistory U).
Proof.
  split.
  - intros s. split; reflexivity.
  - intros s1 s2 s3 [H1 H2] [H3 H4]. split; congruence.
Qed.

#[local] Instance engineGrows_PreOrder : PreOrder (engineGrows U).
Proof.
  split.
  - intros s. repeat split. exists []. now rewrite app_nil_r.
  - intros s1 s2 s3 (C1 & L1 & R1 & m1 & Q1) (C2 & L2 & R2 & m2 & Q2).
    repeat split; try congruence.
    exists (m1 ++ m2). now rewrite Q2, Q1, app_assoc.
Qed.

Lemma sameEngine_engineGrows (s s' : State U) :
  sameEngine U s s' -> engineGrows U s s'.
Proof.
  unfold sameEngine. intros E. unfold engineGrows. rewrite E. repeat split.
  exists []. now rewrite app_nil_r.
Qed.

Lemma stable_weaken {A : Type} (R R' : State U -> State U -> Prop) (m : M A) :
  (forall s s', R s s' -> R' s s') -> stable R m -> stable R' m.
Proof. intros HR Hm s. apply HR, Hm. Qed.

Lemma load_sameEngine response : stable (sameEngine U) (load response).
Proof. apply stable_load; try exact _; intros s; intros; reflexivity. Qed.

Lemma load_sameHistory response : stable (sameHistory U) (load response).
Proof. apply stable_load; try exact _; intros s; intros; split; reflexivity. Qed.

Lemma execQueue_sameEngine this : stable (sameEngine U) (execQueue this).
Proof. apply stable_execQueue; try exact _. intros s; intros; reflexivity. Qed.

Lemma callHandler_sameEngine h this :
  stable (sameEngine U) (callHandler U call h this).
Proof. apply stable_callHandler; try exact _; intros s; intros; reflexivity. Qed.

Lemma setup_sameEngine : stable (sameEngine U) setup.
Proof.
  unfold PJAX.setup.
  apply stable_bind; try exact _; [apply stable_gets; exact _ | intros w].
  destruct (pushStateSupported w); [|apply stable_ret; exact _].
  apply stable_bind; try exact _; [apply stable_gets; exact _ | intros this].
  apply stable_bind; try exact _;
    [apply stable_modify; try exact _; intros s; reflexivity | intros _].
  apply stable_bind; try exact _;
    [apply stable_modify; try exact _; intros s; reflexivity | intros _].
  apply execQueue_sameEngine.
Qed.

(** Every action leaves the configuration alone and lets the queue only
    grow. *)
Lemma perform_engineGrows (a : action) : stable (engineGrows U) (perform a).
Proof.
  destruct a; simpl.
  - eapply stable_weaken; [apply sameEngine_engineGrows | apply setup_sameEngine].
  - intros s. destruct (onload_spec callback s) as (s' & E & Q & _ & _ & Rp & C & L & _).
    rewrite E. simpl. repeat split; try assumption. eexists. exact Q.
  - eapply stable_weaken; [apply sameEngine_engineGrows|].
    apply stable_bind; try exact _; [apply stable_gets; exact _ | intros w].
    destruct (onload_ w); [apply callHandler_sameEngine | apply stable_ret; exact _].
  - eapply stable_weaken; [apply sameEngine_engineGrows|].
    apply stable_bind; try exact _; [apply stable_gets; exact _ | intros w].
    destruct (onpopstate w); [apply callHandler_sameEngine | apply stable_ret; exact _].
  - eapply stable_weaken; [apply sameEngine_engineGrows|].
    intros s. reflexivity.
  - eapply stable_weaken; [apply sameEngine_engineGrows | apply load_sameEngine].
Qed.

(** ** The claims about the load queue and the history *)

Lemma registerAll_spec (vs : list value) :
  forall s : State U,
    queue (pjax (registerAll vs s)) =
      queue (pjax s) ++
      filter (fun v => String.eqb (typeof v) "function") vs /\
    trace (registerAll vs s) = trace s /\
    page (registerAll vs s) = page s.
Proof.
  induction vs as [|v vs IH]; intros s; simpl.
  - now rewrite app_nil_r.
  - destruct (onload_spec v s) as (s' & E & Q & T & P & _).
    rewrite E. simpl. destruct (IH s') as (Q' & T' & P').
    rewrite Q', Q, T', T, P', P, <- app_assoc.
    destruct (String.eqb (typeof v) "function"); simpl; auto.
Qed.

Lemma functionsOf_filter (vs : list value) :
  functionsOf (filter (fun v => String.eqb (typeof v) "function") vs) =
  functionsOf vs.
Proof.
  induction vs as [|v vs IH]; simpl; [reflexivity|].
  destruct v; simpl; auto. now rewrite IH.
Qed.

(** C5: whatever is registered, in whatever order, a replay calls the
    functions of the queue followed by the newly registered functions, in
    registration order and as often as they were registered; registering
    never fails, and no action ever shortens the queue. *)
Theorem C5_replay_in_registration_order (vs : list value) (s : State U) :
  let s1 := registerAll vs s in
  queue (pjax s1) =
    queue (pjax s) ++ filter (fun v => String.eqb (typeof v) "function") vs /\
  (exists s2 t,
     execQueue ThisEngine s1 = (Normal tt, s2) /\
     trace s2 = trace s1 ++ t /\
     calls t = functionsOf (queue (pjax s)) ++ functionsOf vs) /\
  (forall v s0, fst (onload v s0) = Normal tt) /\
  (forall a s0, exists more,
     queue (pjax (snd (perform a s0))) = queue (pjax s0) ++ more).
Proof.
  intros s1. destruct (registerAll_spec vs s) as (Q & T & P).
  split; [exact Q|]. split; [|split].
  - rewrite execQueue_engine.
    destruct (forEach_execEntry_spec (queue (pjax s1)) 0 s1)
      as (s2 & E & _ & _ & t & Ht & Hc).
    exists s2, t. repeat split; try assumption.
    rewrite Hc. subst s1. now rewrite Q, functionsOf_app, functionsOf_filter.
  - intros v s0. destruct (onload_spec v s0) as (s' & E & _). now rewrite E.
  - intros a s0. destruct (perform_engineGrows a s0) as (_ & _ & _ & more & Hm).
    now exists more.
Qed.

Lemma forEach_app {A : Type} (f : A -> nat -> M unit) (l1 l2 : list A) :
  forall key s s1,
    forEach f key l1 s = (Normal tt, s1) ->
    forEach f key (l1 ++ l2) s = forEach f (key + length l1) l2 s1.
Proof.
  induction l1 as [|x l1 IH]; intros key s s1; simpl.
  - intros [= <-]. now rewrite Nat.add_0_r.
  - unfold bind at 1 2. destruct (f x key s) as [[[]|e] s0]; [|discriminate].
    intros E. rewrite (IH _ _ _ E). f_equal. lia.
Qed.

(** C6: a callback that throws is caught and logged on the spot, the
    replay completes normally, and the callbacks registered after it are
    all called, in order, later in the same pass. *)
Theorem C6_throwing_callback_isolated (q1 q2 : list value) (f : nat) (e : exn)
  (s : State U) :
  queue (pjax s) = q1 ++ Function f :: q2 ->
  snd (call f (page (snd (forEach execEntry 0 q1 s)))) = Some e ->
  exists s' t1 t2,
    execQueue ThisEngine s = (Normal tt, s') /\
    trace s' = trace s ++ t1 ++ [Called f; Logged e (Function f)] ++ t2 /\
    calls t1 = functionsOf q1 /\
    calls t2 = functionsOf q2.
Proof.
  intros Hq Hthrow. rewrite execQueue_engine, Hq.
  destruct (forEach_execEntry_spec q1 0 s) as (s1 & E1 & _ & _ & t1 & T1 & C1).
  rewrite E1 in Hthrow. simpl in Hthrow.
  rewrite (forEach_app _ _ _ _ _ _ E1). simpl. unfold bind at 1.
  unfold PJAX.execEntry at 1. simpl. unfold tryCatch, invoke.
  destruct (call f (page s1)) as [u r] eqn:Hc. simpl in Hthrow. subst r.
  simpl.
  match goal with
  | |- context [forEach execEntry ?k q2 ?st] =>
      destruct (forEach_execEntry_spec q2 k st) as (s2 & E2 & _ & _ & t2 & T2 & C2)
  end.
  exists s2, t1, t2. rewrite E2. repeat split; try assumption.
  rewrite T2. simpl. rewrite T1. now rewrite <- !app_assoc.
Qed.

(** C10: [onload] with anything but a function returns normally and
    leaves the queue as it was, so that the next replay calls exactly the
    functions registered before; and a queue entry that is not a function
    is passed over. *)
Theorem C10_non_function_ignored (v : value) (s : State U) :
  typeof v <> "function" ->
  (exists s',
     onload v s = (Normal tt, s') /\
     queue (pjax s') = queue (pjax s) /\
     exists s2 t,
       execQueue ThisEngine s' = (Normal tt, s2) /\
       trace s2 = trace s ++ t /\
       calls t = functionsOf (queue (pjax s))) /\
  (forall key s0, execEntry v key s0 = (Normal tt, s0)).
Proof.
  intros Hty.
  assert (Hb : String.eqb (typeof v) "function" = false)
    by (apply String.eqb_neq; exact Hty).
  split.
  - destruct (onload_spec v s) as (s' & E & Q & T & _).
    rewrite Hb, app_nil_r in Q.
    exists s'. split; [exact E|]. split; [exact Q|].
    rewrite execQueue_engine.
    destruct (forEach_execEntry_spec (queue (pjax s')) 0 s')
      as (s2 & E2 & _ & _ & t & Ht & Hc).
    exists s2, t. split; [exact E2|]. split; [congruence|].
    now rewrite Hc, Q.
  - intros key s0. unfold PJAX.execEntry. now rewrite Hb.
Qed.

Lemma setup_installs_popstate (s : State U) :
  pushStateSupported (window s) = true ->
  onpopstate (window (snd (setup s))) = Some PopstateArrow.
Proof.
  intros Hp. unfold PJAX.setup, bind, gets, modify. simpl. rewrite Hp. simpl.
  match goal with
  | |- context [PJAX.execQueue U call ThisEngine ?st] =>
      destruct (forEach_execEntry_spec (queue (pjax st)) 0 st)
        as (s' & E & W & _);
      rewrite (execQueue_engine st), E
  end.
  simpl. now rewrite W.
Qed.

(** C7: once [setup] has installed the handler, a back or forward event
    sends one request for the current location and pushes nothing; and the
    patch pass that follows, whatever document arrives, pushes nothing
    either. *)
Theorem C7_popstate_refetches_without_push (s : State U) :
  onpopstate (window s) = Some PopstateArrow ->
  let s' := snd (perform PopState s) in
  fst (perform PopState s) = Normal tt /\
  sent (window s') = sent (window s) ++ [location (window s)] /\
  pushed (window s') = pushed (window s) /\
  location (window s') = location (window s) /\
  forall response s0,
    pushed (window (snd (load response s0))) = pushed (window s0) /\
    location (window (snd (load response s0))) = location (window s0).
Proof.
  intros Hh. simpl. unfold bind, gets. simpl. rewrite Hh. simpl.
  repeat split; apply (load_sameHistory response s0).
Qed.

(** C8, amended: no method and no handler of the engine changes the
    replace configuration; it is an ordinary property all the same, and
    the file itself appends the selector [h1] to the text list of the
    global instance once the constructor has returned. *)
Theorem C8_methods_keep_replace (a : action) (s : State U) :
  replace (pjax (snd (perform a s))) = replace (pjax s) /\
  textContent (replace globalInstance) =
    textContent DEFAULT_REPLACE ++ [mkSelector [] [Type_ "h1"]] /\
  attribute (replace globalInstance) = attribute DEFAULT_REPLACE.
Proof.
  split; [|split; reflexivity].
  now destruct (perform_engineGrows a s) as (_ & _ & Hr & _).
Qed.

Lemma execQueue_empty (s : State U) :
  queue (pjax s) = [] -> execQueue ThisEngine s = (Normal tt, s).
Proof. intros Hq. rewrite execQueue_engine, Hq. reflexivity. Qed.

Lemma execQueue_unbound (s : State U) :
  globalQueue (window s) = None ->
  exists e, execQueue ThisWindow s = (Throw e, s).
Proof.
  intros Hg. unfold PJAX.execQueue, bind, thisQueue. rewrite Hg.
  eexists. reflexivity.
Qed.

(** C9: a callback registered after [setup] is not called at the first
    page load.  The handler stored in [window.onload] is the unbound
    method, so it runs with [window] as [this], finds no queue there and
    throws before calling anything. *)
Theorem C9_registered_after_setup_never_replayed_at_load (f : nat) (s : State U) :
  globalQueue (window s) = None ->
  queue (pjax s) = [] ->
  let s1 := run [CallSetup; CallOnload (Function f)] s in
  calls (trace (run [CallSetup; CallOnload (Function f); WindowLoad] s)) =
    calls (trace s) /\
  queue (pjax s1) = [Function f] /\
  exists e, perform WindowLoad s1 = (Throw e, s1).
Proof.
  intros Hg Hq.
  assert (Hs : exists s0, setup s = (Normal tt, s0) /\ queue (pjax s0) = [] /\
                          trace s0 = trace s /\ globalQueue (window s0) = None).
  { unfold PJAX.setup, bind, gets, modify. simpl.
    destruct (pushStateSupported (window s)).
    - simpl. rewrite execQueue_empty by (simpl; exact Hq).
      eexists. repeat split; simpl; auto.
    - eexists. repeat split; auto. }
  destruct Hs as (s0 & E0 & Q0 & T0 & G0).
  unfold PJAX.run. simpl fold_left. rewrite E0. simpl snd.
  unfold PJAX.onload, bind, modify. simpl.
  match goal with
  | |- context [PJAX.execQueue U call ThisWindow ?st] =>
      destruct (execQueue_unbound st) as (e & Ee); [simpl; exact G0|];
      rewrite Ee
  end.
  simpl. rewrite Q0, T0. repeat split. now exists e.
Qed.

(** ** The patch pass *)

Local Abbreviation copyText := (PJAX.copyText U).
Local Abbreviation copyAttribute := (PJAX.copyAttribute U).
Local Abbreviation replaceText := (PJAX.replaceText U).
Local Abbreviation replaceAttribute := (PJAX.replaceAttribute U).
Local Abbreviation replaceFields := (PJAX.replaceFields U).
Local Abbreviation replaceContent := (PJAX.replaceContent U).

Lemma nth_error_nonempty {A : Type} (l : list A) (key : nat) (x : A) :
  nth_error l key = Some x -> Nat.eqb (length l) 0 = false.
Proof. destruct l; [destruct key; discriminate | reflexivity]. Qed.

(** The guarded copy: with a counterpart it writes, without one it does
    nothing. *)
Lemma copyText_run response sel element key (s : State U) :
  copyText response sel element key s =
  match nth_error (querySelectorAll response sel) key with
  | Some f => write U (setTextContent (DOM.textContent (snd f))) (fst element) s
  | None => (Normal tt, s)
  end.
Proof.
  unfold PJAX.copyText. cbv zeta.
  destruct (nth_error (querySelectorAll response sel) key) as [f|] eqn:Hf.
  - rewrite (nth_error_nonempty _ _ _ Hf). reflexivity.
  - rewrite andb_false_r. reflexivity.
Qed.

Lemma copyAttribute_run response en element key (s : State U) :
  copyAttribute response en element key s =
  match nth_error (querySelectorAll response (entry_selector en)) key with
  | Some f =>
      write U (mapElement
                 (setAttribute (entry_attribute en)
                    (toString (nodeAttribute (snd f) (entry_attribute en)))))
            (fst element) s
  | None => (Normal tt, s)
  end.
Proof.
  unfold PJAX.copyAttribute. cbv zeta.
  destruct (nth_error (querySelectorAll response (entry_selector en)) key)
    as [f|] eqn:Hf.
  - rewrite (nth_error_nonempty _ _ _ Hf). reflexivity.
  - rewrite andb_false_r. reflexivity.
Qed.

Lemma forEach_normal {A : Type} (f : A -> nat -> M unit) (l : list A) :
  (forall x key s, fst (f x key s) = Normal tt) ->
  forall key s, fst (forEach f key l s) = Normal tt.
Proof.
  intros Hf. induction l as [|x l IH]; intros key s; simpl; [reflexivity|].
  unfold bind. specialize (Hf x key s).
  destruct (f x key s) as [[[]|e] s1]; simpl in Hf; [apply IH | discriminate].
Qed.



Lemma copyText_normal response sel element key (s : State U) :
  fst (copyText response sel element key s) = Normal tt.
Proof.
  rewrite copyText_run. now destruct (nth_error _ key).
Qed.

Lemma copyAttribute_normal response en element key (s : State U) :
  fst (copyAttribute response en element key s) = Normal tt.
Proof.
  rewrite copyAttribute_run. now destruct (nth_error _ key).
Qed.

Lemma replaceFields_normal response (s : State U) :
  fst (replaceFields response s) = Normal tt.
Proof.
  unfold PJAX.replaceFields, bind, gets.
  pose proof (forEach_normal (replaceText response)
                (textContent (replace (pjax s)))) as Ht.
  specialize (Ht ltac:(intros x key s0; unfold PJAX.replaceText, bind, live, gets;
                       apply forEach_normal; intros; apply copyText_normal) 0 s).
  destruct (forEach (replaceText response) 0 _ s) as [[[]|e] s1];
    simpl in Ht; [|discriminate].
  apply forEach_normal. intros x key s0.
  unfold PJAX.replaceAttribute, bind, live, gets.
  apply forEach_normal. intros. apply copyAttribute_normal.
Qed.



(** The swap, case by case. *)
Lemma replaceContent_spec (response : Document) (s : State U) :
  match querySelector (document (window s)) (container (pjax s)),
        querySelector response (container (pjax s)) with
  | Some cur, Some new =>
      exists s',
        replaceContent response s = (Normal (remove (fst new) response), s') /\
        lookup (document (window s')) (fst cur) = Some (snd new) /\
        pjax s' = pjax s /\ trace s' = trace s
  | _, _ => exists e, replaceContent response s = (Throw e, s)
  end.
Proof.
  unfold PJAX.replaceContent, bind, gets, live. simpl. cbv zeta.
  destruct (querySelector (document (window s)) _) as [cur|] eqn:Hc.
  - destruct (querySelector response _) as [new|].
    + eexists. split; [reflexivity|]. simpl. split; [|split; reflexivity].
      rewrite lookup_update_same.
      unfold querySelector in Hc.
      destruct (querySelectorAll (document (window s)) _) as [|x l] eqn:Hq;
        [discriminate|]. injection Hc as ->.
      destruct cur as [p n].
      destruct (querySelectorAll_valid (document (window s)) (container (pjax s)) p n)
        as [Hl _]; [rewrite Hq; now left|].
      simpl. now rewrite Hl.
    + eexists. reflexivity.
  - eexists. reflexivity.
Qed.









(** ** The scripts of the fetched container *)

Lemma addLinkEvent_markup (pjaxLinks : NodeList) :
  forall d, map markup (addLinkEvent pjaxLinks d) = map markup d.
Proof.
  unfold addLinkEvent.
  induction pjaxLinks as [|l pjaxLinks IH]; intros d; simpl; [reflexivity|].
  rewrite IH. now apply markup_update.
Qed.

(** Adding listeners changes no list of matches. *)
Lemma addLinkEvent_matches (pjaxLinks : NodeList) (d : Document) (sel : selector) :
  map fst (querySelectorAll (addLinkEvent pjaxLinks d) sel) =
  map fst (querySelectorAll d sel).
Proof.
  rewrite <- querySelectorAll_markup, addLinkEvent_markup.
  apply querySelectorAll_markup.
Qed.

#[local] Instance onlyWindow_PreOrder : PreOrder (onlyWindow U).
Proof.
  split.
  - intros s. repeat split.
  - intros s1 s2 s3 (P1 & U1 & T1) (P2 & U2 & T2). repeat split; congruence.
Qed.

Lemma onlyWindow_document : ignoresDocument U (onlyWindow U).
Proof. intros s d. repeat split. Qed.

Lemma evaluations_app (t1 t2 : list event) :
  evaluations (t1 ++ t2) = evaluations t1 ++ evaluations t2.
Proof. unfold evaluations. apply flat_map_app. Qed.

Lemma execEntry_evaluations (func : value) (key : nat) (s : State U) :
  evaluations (trace (snd (execEntry func key s))) = evaluations (trace s).
Proof.
  unfold PJAX.execEntry.
  destruct (String.eqb (typeof func) "function") eqn:Hty; [|reflexivity].
  destruct (typeof_function _ Hty) as [f ->].
  unfold tryCatch, invoke. destruct (call f (page s)) as [u [e|]]; simpl;
    rewrite ?evaluations_app; simpl; now rewrite ?app_nil_r.
Qed.

Lemma forEach_execEntry_evaluations (q : list value) :
  forall key (s : State U),
    evaluations (trace (snd (forEach execEntry key q s))) = evaluations (trace s).
Proof.
  induction q as [|v q IH]; intros key s; simpl; [reflexivity|].
  unfold bind. pose proof (execEntry_evaluations v key s) as Hv.
  destruct (execEntry_spec v key s) as (s1 & E1 & _).
  rewrite E1 in Hv |- *. simpl in Hv. now rewrite IH.
Qed.

Lemma callHandler_evaluations (h : handler) (this : receiver) (s : State U) :
  evaluations (trace (snd (callHandler U call h this s))) = evaluations (trace s).
Proof.
  destruct h; [|reflexivity]. simpl. unfold PJAX.execQueue, bind, thisQueue.
  destruct this; [apply forEach_execEntry_evaluations|].
  destruct (globalQueue (window s)); [apply forEach_execEntry_evaluations|].
  reflexivity.
Qed.



(** X8: whenever the container selector has at most one match in the fetched
    document -- the invariant the engine relies on -- the patch pass
    evaluates no script at all: by the time the scripts are looked up, the
    only container has left the fetched document. *)
Theorem moved_container_scripts_never_evaluated (response : Document)
  (s : State U) :
  length (querySelectorAll response (container (pjax s))) <= 1 ->
  evaluations (trace (snd (load response s))) = evaluations (trace s).
Proof.
  intros Hone. unfold PJAX.load, bind.
  pose proof (replaceFields_normal response s) as Hn.
  destruct (stable_replaceFields (onlyWindow U) onlyWindow_document response s)
    as (P1 & _ & T1).
  destruct (replaceFields response s) as [[[]|e] s1]; simpl in Hn, P1, T1;
    [|discriminate].
  unfold gets at 1. cbv zeta.
  set (response1 := addLinkEvent _ response).
  pose proof (replaceContent_spec response1 s1) as Hc.
  destruct (querySelector (document (window s1)) (container (pjax s1)))
    as [cur|]; [|destruct Hc as [e ->]; simpl; now rewrite T1].
  destruct (querySelector response1 (container (pjax s1))) as [new|] eqn:Hnew;
    [|destruct Hc as [e ->]; simpl; now rewrite T1].
  destruct Hc as (s2 & -> & _ & P2 & T2).
  assert (Hq : querySelectorAll response1 (container (pjax s1)) = [new]).
  { unfold querySelector in Hnew.
    pose proof (addLinkEvent_matches
                  (querySelectorAll response
                     (descendant (container (pjax s1)) (links (pjax s1))))
                  response (container (pjax s1))) as Hm.
    fold response1 in Hm. apply (f_equal (@length _)) in Hm.
    rewrite !length_map in Hm. rewrite <- P1 in Hone.
    destruct (querySelectorAll response1 (container (pjax s1))) as [|x [|y l]];
      [discriminate | now injection Hnew as -> | simpl in Hm; lia]. }
  unfold executeScripts, bind, gets. simpl.
  rewrite P2.
  rewrite (querySelectorAll_descendant_nil _ _ _ (remove_only_match _ _ _ Hq)).
  simpl. rewrite P2.
  destruct (afterLoad (pjax s1)) as [h|]; simpl.
  - rewrite callHandler_evaluations. congruence.
  - congruence.
Qed.

End Properties.

(** * The theorems at work on the concrete page *)

Section Instances.
Import Scenario.

Local Abbreviation loadS := (PJAX.load Page call evalScript).
Local Abbreviation runS := (PJAX.run Page call evalScript).

Example title_scenario :
  textAt (document (window (snd (loadS fetchedB (start liveA engine))))) [0; 0; 0] =
  Some "New".
Proof. reflexivity. Qed.

Example same_callback_twice :
  calls (trace (snd (PJAX.execQueue Page call ThisEngine
                       (registerAll Page [Function 7; Function 7]
                          (start liveA engine))))) = [7; 7].
Proof. reflexivity. Qed.

Example missing_attribute_becomes_null :
  setAttribute "content" (toString (getAttribute (mkElement "meta" [] 0) "content"))
               (mkElement "meta" [("content", "Old")] 0) =
  mkElement "meta" [("content", "null")] 0.
Proof. reflexivity. Qed.

Example class_tokens : tokens "post  body wide" = ["post"; "body"; "wide"].
Proof. reflexivity. Qed.

Example descendant_selector :
  map fst (querySelectorAll fetchedB (descendant DEFAULT_CONTAINER scriptSelector)) =
  [[0; 1; 0; 1]].
Proof. reflexivity. Qed.

(** C1: on the documents of the scenario the patch pass completes, the
    live container is the fetched one, and the fetched script is never
    evaluated: the list of scripts is taken from the fetched document once
    its container has been moved out of it, so it is empty and
    [window.__x] stays undefined. *)
Theorem C1_scenario_script_never_evaluated :
  let r := loadS fetchedB (start liveA engine) in
  fst r = Normal tt /\
  lookup (document (window (snd r))) [0; 1; 0] = lookup fetchedB [0; 1; 0] /\
  querySelectorAll fetchedB (descendant (container engine) scriptSelector) =
    [([0; 1; 0; 1], el "script" [] [Text "window.__x=1"])] /\
  evaluations (trace (snd r)) = [] /\
  page (snd r) = None.
Proof. vm_compute. repeat split. Qed.





Lemma C6_throwing_callback_isolated_witness :
  queue (pjax registered) = [Function 1] ++ Function 13 :: [Function 2] /\
  exists s' t1 t2,
    PJAX.execQueue Page call ThisEngine registered = (Normal tt, s') /\
    trace s' =
      trace registered ++
      t1 ++ [Called 13; Logged (Thrown (Str "boom")) (Function 13)] ++ t2 /\
    calls t1 = [1] /\ calls t2 = [2].
Proof.
  split; [reflexivity|].
  exact (C6_throwing_callback_isolated Page call [Function 1] [Function 2] 13
           (Thrown (Str "boom")) registered eq_refl eq_refl).
Defined.

Lemma C7_popstate_refetches_without_push_witness :
  let s := snd (PJAX.setup Page call (start liveA engine)) in
  let s' := snd (PJAX.perform Page call evalScript PopState s) in
  onpopstate (window s) = Some PopstateArrow /\
  sent (window s') = ["https://example.org/a"] /\
  pushed (window s') = [].
Proof.
  split; [reflexivity|].
  destruct (C7_popstate_refetches_without_push Page call evalScript
              (snd (PJAX.setup Page call (start liveA engine))) eq_refl)
    as (_ & Hs & Hp & _).
  split; [exact Hs | exact Hp].
Defined.

(** The claim C8 as it is worded fails: the global instance does not keep
    the configuration its constructor gave it. *)
Lemma C8_counterexample :
  replace globalInstance <> replace (constructor None None None).
Proof. discriminate. Qed.

Lemma C9_registered_after_setup_never_replayed_at_load_witness :
  globalQueue (window (start liveA engine)) = None /\
  queue (pjax (start liveA engine)) = [] /\
  calls (trace (runS [CallSetup; CallOnload (Function 1); WindowLoad]
                  (start liveA engine))) = [].
Proof.
  split; [reflexivity|]. split; [reflexivity|].
  exact (proj1 (C9_registered_after_setup_never_replayed_at_load Page call
                  evalScript 1 (start liveA engine) eq_refl eq_refl)).
Defined.

Lemma C10_non_function_ignored_witness :
  typeof (Number 3) <> "function" /\
  forall key s0, PJAX.execEntry Page call (Number 3) key s0 = (Normal tt, s0).
Proof.
  assert (H : typeof (Number 3) <> "function") by discriminate.
  split; [exact H|].
  exact (proj2 (C10_non_function_ignored Page call (Number 3) registered H)).
Defined.

End Instances.

(** * More of the engine *)

Section Links.
Import Handles.

Lemma sorted_NoDup (l : list path) : StronglySorted precedes l -> NoDup l.
Proof.
  induction 1 as [|p l Hs IH Hp]; constructor; [|exact IH].
  intros Hin. rewrite Forall_forall in Hp.
  exact (precedes_irrefl p (Hp p Hin)).
Qed.

Lemma querySelectorAll_NoDup (d : Document) (sel : selector) :
  NoDup (map fst (querySelectorAll d sel)).
Proof. apply sorted_NoDup, querySelectorAll_sorted. Qed.

(** The records after [addLinkEvent] over a list without repeated
    paths. *)
Lemma addLinkEvent_elementAt (l : NodeList) :
  NoDup (map fst l) ->
  forall d p,
    elementAt (addLinkEvent l d) p =
    if pathIn p l then option_map addListener (elementAt d p) else elementAt d p.
Proof.
  unfold addLinkEvent, pathIn.
  induction l as [|x l IH]; intros Hnd d p; simpl; [reflexivity|].
  inversion Hnd as [|? ? Hx Hl]; subst. rewrite (IH Hl).
  destruct (path_eq_dec (fst x) p) as [<-|Hne].
  - destruct (in_dec path_eq_dec (fst x) (map fst l)); [contradiction|].
    apply elementAt_update_same.
  - rewrite elementAt_update_other by congruence.
    destruct (in_dec path_eq_dec p (map fst l)); reflexivity.
Qed.

(** X1: [addLinkEvent] over the matches of a selector gives each matched
    element exactly one more click listener, leaves the record of every
    other element as it is, and changes nothing a selector can see. *)
Theorem addLinkEvent_one_listener_each (d : Document) (sel : selector) (p : path) :
  let d' := addLinkEvent (querySelectorAll d sel) d in
  elementAt d' p =
    (if pathIn p (querySelectorAll d sel)
     then option_map addListener (elementAt d p)
     else elementAt d p) /\
  map markup d' = map markup d /\
  forall sel', map fst (querySelectorAll d' sel') = map fst (querySelectorAll d sel').
Proof.
  split; [|split].
  - apply addLinkEvent_elementAt, querySelectorAll_NoDup.
  - apply addLinkEvent_markup.
  - intros sel'. apply addLinkEvent_matches.
Qed.
End Links.


Section MoreEngine.
Import Handles.

Variable U : Type.
Variable call : nat -> U -> U * option exn.
Variable evalScript : string -> U -> U.

Local Abbreviation setup := (PJAX.setup U call).
Local Abbreviation load := (PJAX.load U call evalScript).
Local Abbreviation run := (PJAX.run U call evalScript).
Local Abbreviation execQueue := (PJAX.execQueue U call).
Local Abbreviation executeScripts := (PJAX.executeScripts U evalScript).
Local Abbreviation replaceFields := (PJAX.replaceFields U).

Lemma replay_spec (s : State U) :
  exists s' t,
    execQueue ThisEngine s = (Normal tt, s') /\
    window s' = window s /\ pjax s' = pjax s /\
    trace s' = trace s ++ t /\
    calls t = functionsOf (queue (pjax s)) /\ evaluations t = [].
Proof.
  rewrite execQueue_engine.
  destruct (forEach_execEntry_spec U call (queue (pjax s)) 0 s)
    as (s' & E & W & P & t & T & C).
  exists s', t. repeat split; try assumption.
  pose proof (forEach_execEntry_evaluations U call (queue (pjax s)) 0 s) as Hev.
  rewrite E in Hev. simpl in Hev. rewrite T, evaluations_app in Hev.
  rewrite <- (app_nil_r (evaluations (trace s))) in Hev at 2.
  now apply app_inv_head in Hev.
Qed.

(** What [setup] does, by cases on the history API. *)
Lemma setup_cases (s : State U) :
  if pushStateSupported (window s)
  then
    exists s' t,
      setup s = (Normal tt, s') /\
      document (window s') =
        addLinkEvent
          (querySelectorAll (document (window s)) (links (pjax s)))
          (document (window s)) /\
      onpopstate (window s') = Some PopstateArrow /\
      onload_ (window s') = onload_ (window s) /\
      sent (window s') = sent (window s) /\
      pushed (window s') = pushed (window s) /\
      location (window s') = location (window s) /\
      pjax s' = pjax s /\
      trace s' = trace s ++ t /\
      calls t = functionsOf (queue (pjax s)) /\ evaluations t = []
  else setup s = (Normal tt, s).
Proof.
  unfold PJAX.setup, bind, gets, modify. simpl.
  destruct (pushStateSupported (window s)); [|reflexivity]. simpl.
  match goal with
  | |- context [PJAX.execQueue U call ThisEngine ?st] =>
      destruct (replay_spec st) as (s' & t & E & W & P & T & C & V)
  end.
  exists s', t. rewrite E. split; [reflexivity|].
  rewrite W, P, T. simpl. repeat split; assumption.
Qed.

(** X2: what [setup] does.  With [history.pushState] it adds one listener
    to every element matching the link selector, installs the popstate
    handler and replays the queue once, in order; it sends and pushes
    nothing and leaves the instance alone.  Without [history.pushState] it
    does nothing at all. *)
Theorem setup_effect (s : State U) :
  if pushStateSupported (window s)
  then
    exists s' t,
      setup s = (Normal tt, s') /\
      document (window s') =
        addLinkEvent
          (querySelectorAll (document (window s)) (links (pjax s)))
          (document (window s)) /\
      onpopstate (window s') = Some PopstateArrow /\
      onload_ (window s') = onload_ (window s) /\
      sent (window s') = sent (window s) /\
      pushed (window s') = pushed (window s) /\
      location (window s') = location (window s) /\
      pjax s' = pjax s /\
      trace s' = trace s ++ t /\
      calls t = functionsOf (queue (pjax s)) /\ evaluations t = []
  else setup s = (Normal tt, s).
Proof. exact (setup_cases s). Qed.






Lemma sameDocument_PreOrder : PreOrder (@sameDocument U).
Proof.
  split; [intros s; reflexivity | intros a b c; unfold sameDocument; congruence].
Qed.

Lemma afterSwap_sameDocument (response : Document) (s : State U) :
  document
    (window
       (snd (bind U (executeScripts response)
               (fun _ =>
                  bind U (gets U pjax)
                    (fun this' =>
                       match afterLoad this' with
                       | Some h => callHandler U call h ThisEngine
                       | None => ret U tt
                       end)) s))) =
  document (window s).
Proof.
  apply (@stable_bind U (@sameDocument U) sameDocument_PreOrder).
  - apply (@stable_executeScripts U evalScript _ sameDocument_PreOrder).
    intros a u t. reflexivity.
  - intros _. apply (@stable_bind U (@sameDocument U) sameDocument_PreOrder).
    + apply (@stable_gets U _ sameDocument_PreOrder).
    + intros this'. destruct (afterLoad this').
      * apply (@stable_callHandler U call _ sameDocument_PreOrder);
          intros a; intros; reflexivity.
      * apply (@stable_ret U _ sameDocument_PreOrder).
Qed.

(** The document after the listener of [request] has run, whatever its
    outcome. *)
Lemma load_document (response : Document) (s : State U) :
  let s1 := snd (replaceFields response s) in
  let response1 :=
    addLinkEvent
      (querySelectorAll response
         (descendant (container (pjax s)) (links (pjax s)))) response in
  document (window (snd (load response s))) =
  match querySelector (document (window s1)) (container (pjax s)),
        querySelector response1 (container (pjax s)) with
  | Some cur, Some new => update (fun _ => snd new) (fst cur) (document (window s1))
  | _, _ => document (window s1)
  end.
Proof.
  cbv zeta. unfold PJAX.load. unfold bind at 1.
  pose proof (replaceFields_normal U response s) as Hn.
  destruct (@stable_replaceFields U (onlyWindow U) (onlyWindow_PreOrder U)
              (onlyWindow_document U) response s) as (P1 & _ & _).
  destruct (PJAX.replaceFields U response s) as [[[]|e] s1]; simpl in Hn, P1;
    [|discriminate].
  simpl snd. unfold bind at 1. unfold gets at 1. cbv zeta. rewrite <- P1.
  set (response1 := addLinkEvent _ response).
  unfold bind at 1. unfold replaceContent at 1. unfold bind at 1, gets at 1.
  unfold bind at 1, live at 1, gets at 1. cbv zeta. simpl pjax.
  destruct (querySelector (document (window s1)) (container (pjax s1))) as [cur|];
    [|reflexivity].
  destruct (querySelector response1 (container (pjax s1))) as [new|];
    [|reflexivity].
  unfold bind at 1, write at 1, modify at 1. unfold ret at 1.
  rewrite afterSwap_sameDocument. reflexivity.
Qed.

Lemma forEach_runScript (h : list node) (l : NodeList) :
  forall key (s : State U),
    head (document (window s)) = Some h ->
    exists s',
      PJAX.forEach U (runScript U evalScript) key l s = (Normal tt, s') /\
      window s' = window s /\ pjax s' = pjax s /\
      trace s' = trace s ++ map Evaluated (scriptTexts l) /\
      page s' = fold_left (fun u t => evalScript t u) (scriptTexts l) (page s).
Proof.
  unfold scriptTexts.
  induction l as [|code l IH]; intros key s Hh; simpl.
  - exists s. rewrite app_nil_r. repeat split.
  - unfold bind at 1. unfold runScript at 1. unfold bind at 1, live, gets.
    rewrite Hh. cbv zeta.
    destruct (String.eqb (DOM.textContent (snd code)) "") eqn:Ht; simpl.
    + apply IH. exact Hh.
    + match goal with
      | |- context [PJAX.forEach U _ (S key) l ?st] =>
          destruct (IH (S key) st) as (s' & E & W & P & T & G); [exact Hh|]
      end.
      exists s'. rewrite E. split; [reflexivity|]. simpl in *.
      rewrite W, P, T, G, <- app_assoc. repeat split.
Qed.

(** What the script step does, by cases on the head and the scripts. *)
Lemma executeScripts_cases (response : Document) (s : State U) :
  let scripts :=
    querySelectorAll response (descendant (container (pjax s)) scriptSelector) in
  match head (document (window s)), scripts with
  | Some _, _ =>
      exists s',
        executeScripts response s = (Normal tt, s') /\
        window s' = window s /\ pjax s' = pjax s /\
        trace s' = trace s ++ map Evaluated (scriptTexts scripts) /\
        page s' = fold_left (fun u t => evalScript t u) (scriptTexts scripts) (page s)
  | None, [] => executeScripts response s = (Normal tt, s)
  | None, _ :: _ => exists e, executeScripts response s = (Throw e, s)
  end.
Proof.
  cbv zeta. unfold PJAX.executeScripts, bind, gets. simpl.
  destruct (head (document (window s))) as [h|] eqn:Hh.
  - now apply (forEach_runScript h).
  - destruct (querySelectorAll response _) as [|code l]; [reflexivity|].
    simpl. unfold bind, runScript, live, gets, bind. rewrite Hh.
    eexists. reflexivity.
Qed.

(** X5: the scripts handed to [executeScripts] are evaluated once each, in
    document order, the empty ones excepted, provided the live document has
    a head; without a head the first script makes it throw before anything
    is evaluated.  Nothing but the page and the trace changes. *)
Theorem executeScripts_once_in_order (response : Document) (s : State U) :
  let scripts :=
    querySelectorAll response (descendant (container (pjax s)) scriptSelector) in
  match head (document (window s)), scripts with
  | Some _, _ =>
      exists s',
        executeScripts response s = (Normal tt, s') /\
        window s' = window s /\ pjax s' = pjax s /\
        trace s' = trace s ++ map Evaluated (scriptTexts scripts) /\
        page s' = fold_left (fun u t => evalScript t u) (scriptTexts scripts) (page s)
  | None, [] => executeScripts response s = (Normal tt, s)
  | None, _ :: _ => exists e, executeScripts response s = (Throw e, s)
  end.
Proof. exact (executeScripts_cases response s). Qed.

Lemma calls_map_Evaluated (l : list string) : calls (map Evaluated l) = [].
Proof. induction l; simpl; auto. Qed.

Lemma hd_error_same_paths (l1 l2 : NodeList) (x : path * node) :
  map fst l1 = map fst l2 -> hd_error l2 = Some x ->
  exists y, hd_error l1 = Some y /\ fst y = fst x.
Proof.
  destruct l1 as [|y l1], l2 as [|z l2]; simpl; try discriminate.
  intros [= E _] [= <-]. now exists y.
Qed.

Lemma load_outcome (response : Document) (s : State U) :
  match load response s with
  | (Normal _, s') =>
      exists t,
        trace s' = trace s ++ t /\
        calls t =
          match afterLoad (pjax s) with
          | Some ExecQueue => functionsOf (queue (pjax s))
          | _ => []
          end
  | (Throw _, _) => True
  end.
Proof.
  unfold PJAX.load. unfold bind at 1.
  pose proof (replaceFields_normal U response s) as Hn.
  destruct (@stable_replaceFields U (onlyWindow U) (onlyWindow_PreOrder U)
              (onlyWindow_document U) response s) as (P1 & _ & T1).
  destruct (PJAX.replaceFields U response s) as [[[]|e] s1]; simpl in Hn, P1, T1;
    [|discriminate].
  unfold bind at 1. unfold gets at 1. cbv zeta.
  set (response1 := addLinkEvent _ response).
  unfold bind at 1.
  pose proof (replaceContent_spec U response1 s1) as Hc.
  destruct (querySelector (document (window s1)) (container (pjax s1))) as [cur|];
    [|destruct Hc as [e He]; now rewrite He].
  destruct (querySelector response1 (container (pjax s1))) as [new|];
    [|destruct Hc as [e He]; now rewrite He].
  destruct Hc as (s2 & He & _ & P2 & T2). rewrite He.
  unfold bind at 1.
  pose proof (executeScripts_cases (remove (fst new) response1) s2) as Hs.
  cbv zeta in Hs.
  destruct (head (document (window s2))) as [h|].
  - destruct Hs as (s3 & E3 & _ & P3 & T3 & _). rewrite E3.
    unfold bind at 1, gets at 1. rewrite P3, P2, P1.
    destruct (afterLoad (pjax s)) as [[|]|]; unfold callHandler.
    + destruct (replay_spec s3) as (s4 & t & E4 & _ & _ & T4 & C4 & _).
      rewrite E4.
      exists (map Evaluated
                (scriptTexts
                   (querySelectorAll (remove (fst new) response1)
                      (descendant (container (pjax s2)) scriptSelector))) ++ t).
      rewrite T4, T3, T2, T1, <- app_assoc. split; [reflexivity|].
      rewrite calls_app, calls_map_Evaluated, C4. simpl. congruence.
    + cbn. eexists. rewrite T3, T2, T1. split; [reflexivity|].
      apply calls_map_Evaluated.
    + cbn. eexists. rewrite T3, T2, T1. split; [reflexivity|].
      apply calls_map_Evaluated.
  - destruct (querySelectorAll (remove (fst new) response1) _) as [|code l].
    + rewrite Hs. unfold bind at 1, gets at 1. rewrite P2, P1.
      destruct (afterLoad (pjax s)) as [[|]|]; unfold callHandler.
      * destruct (replay_spec s2) as (s4 & t & E4 & _ & _ & T4 & C4 & _).
        rewrite E4. exists t.
        rewrite T4, T2, T1. split; [reflexivity|]. rewrite C4. congruence.
      * cbn. exists []. now rewrite app_nil_r, T2, T1.
      * cbn. exists []. now rewrite app_nil_r, T2, T1.
    + destruct Hs as [e He']. now rewrite He'.
Qed.

(** X6: whenever the listener of [request] completes normally, the
    registered callbacks have been replayed exactly once, in order, if
    [onload] has ever been called, and not at all if it has not. *)
Theorem load_replays_once (response : Document) (s : State U) :
  fst (load response s) = Normal tt ->
  exists t,
    trace (snd (load response s)) = trace s ++ t /\
    calls t =
      match afterLoad (pjax s) with
      | Some ExecQueue => functionsOf (queue (pjax s))
      | _ => []
      end.
Proof.
  pose proof (load_outcome response s) as H.
  destruct (load response s) as [[[]|e] s']; [intros _; exact H | discriminate].
Qed.

Lemma lookup_app (d : Document) (p r : path) :
  p <> [] ->
  lookup d (p ++ r) =
  match lookup d p with
  | Some m => nodeAt m r
  | None => None
  end.
Proof.
  intros Hp. rewrite (lookup_root d (p ++ r)), (lookup_root d p), nodeAt_app;
    [reflexivity | exact Hp | destruct p; [contradiction | discriminate]].
Qed.

Lemma lookup_nonempty (d : Document) (p : path) (m : node) :
  lookup d p = Some m -> p <> [].
Proof. destruct p; [discriminate | discriminate]. Qed.

(** X7: after the swap the live container holds the elements of the
    fetched container, those matching the link selector with one more click
    listener than the fetched document gave them, the others with theirs:
    the incoming links are intercepted. *)
Theorem load_links_intercepted (response : Document) (s : State U)
  (cur new : path * node) (r : path) :
  querySelector (document (window (snd (replaceFields response s))))
                (container (pjax s)) = Some cur ->
  querySelector response (container (pjax s)) = Some new ->
  elementAt (document (window (snd (load response s)))) (fst cur ++ r) =
  if pathIn (fst new ++ r)
            (querySelectorAll response
               (descendant (container (pjax s)) (links (pjax s))))
  then option_map addListener (elementAt response (fst new ++ r))
  else elementAt response (fst new ++ r).
Proof.
  intros Hcur Hnew. rewrite load_document. cbv zeta. rewrite Hcur.
  set (l := querySelectorAll response _).
  destruct (hd_error_same_paths
              (querySelectorAll (addLinkEvent l response) (container (pjax s)))
              (querySelectorAll response (container (pjax s))) new)
    as (new1 & H1 & Hf); [apply addLinkEvent_matches | exact Hnew |].
  unfold querySelector at 1. rewrite H1.
  assert (Hin1 : In new1 (querySelectorAll (addLinkEvent l response)
                            (container (pjax s)))).
  { destruct (querySelectorAll (addLinkEvent l response) _); [discriminate|].
    injection H1 as ->. now left. }
  destruct new1 as [q1 m1]. simpl in Hf. subst q1.
  destruct (querySelectorAll_valid _ _ _ _ Hin1) as [Hl1 _].
  assert (Hinc : In cur (querySelectorAll
                           (document (window (snd (replaceFields response s))))
                           (container (pjax s)))).
  { unfold querySelector in Hcur.
    destruct (querySelectorAll _ (container (pjax s))); [discriminate|].
    injection Hcur as ->. now left. }
  destruct cur as [pc mc].
  destruct (querySelectorAll_valid _ _ _ _ Hinc) as [Hlc _]. simpl fst. simpl snd.
  rewrite <- (addLinkEvent_elementAt l (querySelectorAll_NoDup _ _) response).
  unfold elementAt.
  rewrite (lookup_app _ pc r (lookup_nonempty _ _ _ Hlc)), lookup_update_same, Hlc.
  rewrite (lookup_app _ (fst new) r (lookup_nonempty _ _ _ Hl1)), Hl1.
  reflexivity.
Qed.

End MoreEngine.

(** * The first version of the engine *)

Section LegacyObjects.
Import Legacy.

Lemma decimal_parse (n : N) :
  NilZero.uint_of_string (decimal n) = Some (N.to_uint n).
Proof.
  unfold decimal. apply NilZero.usu. destruct n; simpl.
  - discriminate.
  - apply DecimalPos.Unsigned.to_uint_nonnil.
Qed.

Lemma decimal_inj (n m : N) : decimal n = decimal m -> n = m.
Proof.
  intros H. apply DecimalN.Unsigned.to_uint_inj.
  pose proof (decimal_parse n) as Hn. rewrite H, decimal_parse in Hn.
  congruence.
Qed.

Lemma arrayIndex_decimal (n : N) :
  (n < 4294967295)%N -> arrayIndex (decimal n) = Some n.
Proof.
  intros Hn. unfold arrayIndex. rewrite decimal_parse.
  cbv zeta. rewrite DecimalN.Unsigned.of_to, String.eqb_refl.
  apply N.ltb_lt in Hn. now rewrite Hn.
Qed.

Lemma arrayIndex_Some (key : string) (n : N) :
  arrayIndex key = Some n -> key = decimal n.
Proof.
  unfold arrayIndex. destruct (NilZero.uint_of_string key) as [d|]; [|discriminate].
  cbv zeta. destruct (String.eqb_spec (decimal (N.of_uint d)) key) as [E|];
    [|discriminate].
  destruct (N.ltb _ _); [|discriminate]. simpl. now intros [= <-].
Qed.

Lemma arrayIndex_name (key : string) :
  NilZero.uint_of_string key = None -> arrayIndex key = None.
Proof. unfold arrayIndex. now intros ->. Qed.

Lemma get_put_same (key : string) (v : value) (o : object) :
  get key (put key v o) = Some v.
Proof.
  induction o as [|[k w] o IH]; simpl.
  - now rewrite String.eqb_refl.
  - destruct (String.eqb k key) eqn:E; simpl; now rewrite E.
Qed.

Lemma get_put_other (key key' : string) (v : value) (o : object) :
  key' <> key -> get key' (put key v o) = get key' o.
Proof.
  intros Hne. induction o as [|[k w] o IH]; simpl.
  - destruct (String.eqb_spec key key'); [congruence | reflexivity].
  - destruct (String.eqb_spec k key) as [->|Hk]; simpl.
    + destruct (String.eqb_spec key key'); [congruence | reflexivity].
    + now rewrite IH.
Qed.

Lemma put_present (key : string) (v w : value) (o : object) :
  get key o = Some w -> map fst (put key v o) = map fst o.
Proof.
  induction o as [|[k u] o IH]; simpl; [discriminate|].
  destruct (String.eqb k key); simpl; [reflexivity|].
  intros H. now rewrite IH.
Qed.

Lemma put_absent (key : string) (v : value) (o : object) :
  get key o = None -> put key v o = o ++ [(key, v)].
Proof.
  induction o as [|[k u] o IH]; simpl; [reflexivity|].
  destruct (String.eqb k key); [discriminate|].
  intros H. now rewrite IH.
Qed.

Lemma get_In (key : string) (v : value) (o : object) :
  In (key, v) o -> get key o <> None.
Proof.
  induction o as [|[k u] o IH]; simpl; [tauto|].
  intros [[= -> ->]|Hin].
  - now rewrite String.eqb_refl.
  - destruct (String.eqb k key); [discriminate | auto].
Qed.

Lemma get_keys (key : string) (o1 o2 : object) :
  map fst o1 = map fst o2 -> get key o1 = None -> get key o2 = None.
Proof.
  revert o2. induction o1 as [|[k u] o1 IH]; intros [|[k' u'] o2]; simpl;
    try discriminate; [reflexivity|].
  intros [= -> E]. destruct (String.eqb k' key); [discriminate|].
  now apply IH.
Qed.

Lemma In_insertIndex (x y : N * value) (l : list (N * value)) :
  In y (insertIndex x l) <-> y = x \/ In y l.
Proof.
  induction l as [|z l IH]; simpl.
  - intuition.
  - destruct (N.leb (fst x) (fst z)); simpl; [intuition|].
    rewrite IH. intuition.
Qed.

Lemma In_sorted_index (y : N * value) (l : list (N * value)) :
  In y (fold_right insertIndex [] l) <-> In y l.
Proof.
  induction l as [|x l IH]; simpl; [tauto|].
  rewrite In_insertIndex, IH. intuition.
Qed.

(** What is enumerated is a property of the object. *)
Lemma enumerate_In (entry : string * value) (o : object) :
  In entry (enumerate o) -> In entry o.
Proof.
  unfold enumerate. intros Hin. apply in_app_or in Hin. destruct Hin as [Hin|Hin].
  - apply in_map_iff in Hin. destruct Hin as ([n v] & <- & Hin).
    apply (proj1 (In_sorted_index _ _)) in Hin. unfold indexEntries in Hin.
    apply in_flat_map in Hin. destruct Hin as ([k w] & Hk & Hin). simpl in Hin.
    destruct (arrayIndex k) as [m|] eqn:Em; [|contradiction].
    destruct Hin as [[= <- <-]|[]]. simpl.
    now rewrite <- (arrayIndex_Some _ _ Em).
  - unfold nameEntries in Hin. now apply filter_In in Hin.
Qed.

Lemma numbered_app (l1 l2 : list nat) :
  forall i, numbered i (l1 ++ l2) = numbered i l1 ++ numbered (i + length l1) l2.
Proof.
  induction l1 as [|f l1 IH]; intros i; simpl.
  - now rewrite Nat.add_0_r.
  - rewrite IH. replace (S i + length l1) with (i + S (length l1)) by lia.
    reflexivity.
Qed.

Lemma length_numbered (l : list nat) : forall i, length (numbered i l) = length l.
Proof. induction l; intros i; simpl; auto. Qed.

Lemma get_numbered_fresh (l : list nat) :
  forall i j, i + length l <= j -> get (decimal (N.of_nat j)) (numbered i l) = None.
Proof.
  induction l as [|f l IH]; intros i j Hj; simpl in *; [reflexivity|].
  destruct (String.eqb_spec (decimal (N.of_nat i)) (decimal (N.of_nat j))) as [E|_].
  - apply decimal_inj, Nat2N.inj in E. lia.
  - apply IH. lia.
Qed.

Lemma get_numbered_name (key : string) (l : list nat) :
  NilZero.uint_of_string key = None -> forall i, get key (numbered i l) = None.
Proof.
  intros Hk. induction l as [|f l IH]; intros i; simpl; [reflexivity|].
  destruct (String.eqb_spec (decimal (N.of_nat i)) key) as [E|_]; [|apply IH].
  rewrite <- E, decimal_parse in Hk. discriminate.
Qed.

Lemma functionsOf_numbered (l : list nat) : forall i, functionsOf (numbered i l) = l.
Proof. induction l as [|f l IH]; intros i; simpl; [reflexivity | now rewrite IH]. Qed.

Lemma indexEntries_numbered (l : list nat) :
  forall i,
    (N.of_nat (i + length l) <= 4294967295)%N ->
    indexEntries (numbered i l) =
    map (fun kv => (N.of_nat (fst kv), snd kv))
        (combine (seq i (length l)) (map Function l)) /\
    nameEntries (numbered i l) = [].
Proof.
  induction l as [|f l IH]; intros i Hb; simpl in *; [auto|].
  unfold indexEntries, nameEntries in *. simpl.
  rewrite arrayIndex_decimal by lia. simpl.
  destruct (IH (S i)) as [H1 H2]; [lia|]. now rewrite H1, H2.
Qed.

Lemma sorted_numbered (l : list nat) :
  forall i,
    fold_right insertIndex []
      (map (fun kv : nat * value => (N.of_nat (fst kv), snd kv))
           (combine (seq i (length l)) (map Function l))) =
    map (fun kv : nat * value => (N.of_nat (fst kv), snd kv))
        (combine (seq i (length l)) (map Function l)).
Proof.
  induction l as [|f l IH]; intros i; simpl; [reflexivity|].
  rewrite IH. destruct l as [|g l]; simpl; [reflexivity|].
  match goal with
  | |- context [N.leb ?a ?b] => destruct (N.leb_spec a b); [reflexivity | lia]
  end.
Qed.

Lemma enumerate_numbered (l : list nat) (i : nat) :
  (N.of_nat (i + length l) <= 4294967295)%N ->
  enumerate (numbered i l) = numbered i l.
Proof.
  intros Hb. unfold enumerate.
  destruct (indexEntries_numbered l i Hb) as [-> ->].
  rewrite sorted_numbered, app_nil_r. clear Hb. revert i.
  induction l as [|f l IH]; intros i; simpl; [reflexivity|].
  now rewrite IH.
Qed.

End LegacyObjects.

Section LegacyEngine.
Import Legacy.

Variable U : Type.
Variable call : nat -> U -> U * option exn.
Variable test : nat -> string -> U -> U * (exn + bool).
Variable evalScript : string -> U -> U.

Local Abbreviation execEntry := (Legacy.execEntry U call test).
Local Abbreviation execQueue := (Legacy.execQueue U call test).
Local Abbreviation onload := (Legacy.onload U).
Local Abbreviation load := (Legacy.load U call test evalScript).
Local Abbreviation perform := (Legacy.perform U call test evalScript).
Local Abbreviation run := (Legacy.run U call test evalScript).
Local Abbreviation forEach := (Legacy.forEach U).

Lemma legacy_calls_app (t1 t2 : list event) :
  Legacy.calls (t1 ++ t2) = Legacy.calls t1 ++ Legacy.calls t2.
Proof. unfold Legacy.calls. apply flat_map_app. Qed.

Lemma legacy_functionsOf_app (o1 o2 : object) :
  Legacy.functionsOf (o1 ++ o2) = Legacy.functionsOf o1 ++ Legacy.functionsOf o2.
Proof. unfold Legacy.functionsOf. apply flat_map_app. Qed.

(** One property of a queue that has no property [hasOwnProperty]. *)
Lemma legacy_execEntry_spec (entry : string * value) (key : nat) (s : State U) :
  get "hasOwnProperty" (funQueue (pjax s)) = None ->
  get (fst entry) (funQueue (pjax s)) <> None ->
  exists s' t,
    execEntry entry key s = (Normal tt, s') /\
    Legacy.window s' = Legacy.window s /\
    windowResponse s' = windowResponse s /\
    pjax s' = pjax s /\
    trace s' = trace s ++ t /\
    Legacy.calls t = Legacy.functionsOf [entry] /\
    Legacy.evaluations t = [].
Proof.
  intros Hh Hk. unfold Legacy.execEntry, Legacy.bind, hasOwnProperty.
  rewrite Hh. destruct (get (fst entry) (funQueue (pjax s))) as [own|]; [|contradiction].
  simpl. destruct entry as [k v]. simpl.
  destruct v; simpl;
    try (exists s, []; rewrite app_nil_r; repeat split; reflexivity).
  unfold Legacy.tryCatch, Legacy.invoke.
  destruct (call f (page s)) as [u [e|]]; simpl.
  - eexists. exists [Called f; Logged e]. split; [reflexivity|]. simpl.
    rewrite <- app_assoc. repeat split.
  - eexists. exists [Called f]. split; [reflexivity|]. repeat split.
Qed.

Lemma legacy_forEach_execEntry (l : object) :
  forall (key : nat) (s : State U),
    get "hasOwnProperty" (funQueue (pjax s)) = None ->
    (forall entry, In entry l -> get (fst entry) (funQueue (pjax s)) <> None) ->
    exists s' t,
      forEach execEntry key l s = (Normal tt, s') /\
      Legacy.window s' = Legacy.window s /\
      windowResponse s' = windowResponse s /\
      pjax s' = pjax s /\
      trace s' = trace s ++ t /\
      Legacy.calls t = Legacy.functionsOf l /\
      Legacy.evaluations t = [].
Proof.
  induction l as [|entry l IH]; intros key s Hh Hk.
  - exists s, []. rewrite app_nil_r. repeat split.
  - destruct (legacy_execEntry_spec entry key s Hh)
      as (s1 & t1 & E1 & W1 & R1 & P1 & T1 & C1 & V1); [apply Hk; now left|].
    destruct (IH (S key) s1) as (s2 & t2 & E2 & W2 & R2 & P2 & T2 & C2 & V2).
    + now rewrite P1.
    + intros e He. rewrite P1. apply Hk. now right.
    + exists s2, (t1 ++ t2). simpl. unfold Legacy.bind at 1. rewrite E1, E2.
      split; [reflexivity|]. repeat split; try congruence.
      * now rewrite T2, T1, app_assoc.
      * rewrite legacy_calls_app, C1, C2.
        exact (eq_sym (legacy_functionsOf_app [entry] l)).
      * unfold Legacy.evaluations in *. now rewrite flat_map_app, V1, V2.
Qed.

Lemma legacy_forEach_app {A : Type} (f : A -> nat -> Legacy.M U unit)
  (l1 l2 : list A) :
  forall key s s1,
    forEach f key l1 s = (Normal tt, s1) ->
    forEach f key (l1 ++ l2) s = forEach f (key + length l1) l2 s1.
Proof.
  induction l1 as [|x l1 IH]; intros key s s1; simpl.
  - intros [= <-]. now rewrite Nat.add_0_r.
  - unfold Legacy.bind at 1 2. destruct (f x key s) as [[[]|e] s0]; [|discriminate].
    intros E. rewrite (IH _ _ _ E). f_equal. lia.
Qed.

Lemma legacy_execEntry_throwing (k : string) (f key : nat) (e : exn) (s : State U) :
  get "hasOwnProperty" (funQueue (pjax s)) = None ->
  get k (funQueue (pjax s)) <> None ->
  snd (call f (page s)) = Some e ->
  exists s',
    execEntry (k, Function f) key s = (Normal tt, s') /\
    pjax s' = pjax s /\
    trace s' = trace s ++ [Called f; Logged e].
Proof.
  intros Hh Hk He. unfold Legacy.execEntry, Legacy.bind, hasOwnProperty.
  rewrite Hh. simpl. destruct (get k (funQueue (pjax s))) as [own|]; [|contradiction].
  simpl. unfold Legacy.tryCatch, Legacy.invoke.
  destruct (call f (page s)) as [u r]. simpl in He. subst r. simpl.
  eexists. split; [reflexivity|]. simpl. rewrite <- app_assoc. now split.
Qed.

(** X9: the replay of the first version.  With no property named
    [hasOwnProperty] in the queue, [execQueue] visits the properties in
    enumeration order and completes normally; a function that throws is
    logged on the spot and the functions after it are all called. *)
Theorem legacy_throwing_callback_isolated (l1 l2 : object) (k : string) (f : nat)
  (e : exn) (s : State U) :
  get "hasOwnProperty" (funQueue (pjax s)) = None ->
  enumerate (funQueue (pjax s)) = l1 ++ (k, Function f) :: l2 ->
  snd (call f (page (snd (forEach execEntry 0 l1 s)))) = Some e ->
  exists s' t1 t2,
    execQueue s = (Normal tt, s') /\
    trace s' = trace s ++ t1 ++ [Called f; Logged e] ++ t2 /\
    Legacy.calls t1 = Legacy.functionsOf l1 /\
    Legacy.calls t2 = Legacy.functionsOf l2 /\
    pjax s' = pjax s.
Proof.
  intros Hh Hq Hthrow.
  assert (Hown : forall entry, In entry (l1 ++ (k, Function f) :: l2) ->
                               get (fst entry) (funQueue (pjax s)) <> None).
  { intros [k' v'] Hin. rewrite <- Hq in Hin. apply enumerate_In in Hin.
    now apply (get_In k' v'). }
  unfold Legacy.execQueue, Legacy.bind, Legacy.gets. rewrite Hq.
  destruct (legacy_forEach_execEntry l1 0 s Hh)
    as (s1 & t1 & E1 & W1 & R1 & P1 & T1 & C1 & V1).
  { intros entry Hin. apply Hown. apply in_or_app. now left. }
  rewrite E1 in Hthrow. simpl in Hthrow.
  rewrite (legacy_forEach_app _ _ _ _ _ _ E1). simpl.
  unfold Legacy.bind at 1.
  destruct (legacy_execEntry_throwing k f (length l1) e s1)
    as (s2 & E2 & P2 & T2).
  { now rewrite P1. }
  { rewrite P1. apply (Hown (k, Function f)). apply in_or_app. right. now left. }
  { exact Hthrow. }
  rewrite E2.
  destruct (legacy_forEach_execEntry l2 (S (length l1)) s2)
    as (s3 & t2 & E3 & W3 & R3 & P3 & T3 & C3 & V3).
  { now rewrite P2, P1. }
  { intros entry Hin. rewrite P2, P1. apply Hown. apply in_or_app. right. now right. }
  exists s3, t1, t2. split; [exact E3|]. repeat split; try congruence.
  rewrite T3, T2, T1. now rewrite <- !app_assoc.
Qed.

Lemma decimal_not_proto (n : N) : decimal n <> "__proto__".
Proof.
  intros E. pose proof (decimal_parse n) as H. rewrite E in H. discriminate.
Qed.

Lemma onload_anonymous (f : nat) (s : State U) :
  onload (Function f) Undefined s =
  (Normal tt,
   setAfterLoad U PJAX.ExecQueue
     (withWindow U (PJAX.setOnload PJAX.ExecQueue)
        (withQueue U
           (assign (decimal (N.of_nat (length (funQueue (pjax s))))) (Function f))
           s))).
Proof. reflexivity. Qed.

Lemma assign_numbered (gs : list nat) (f : nat) :
  assign (decimal (N.of_nat (length (numbered 0 gs)))) (Function f) (numbered 0 gs) =
  numbered 0 (gs ++ [f]).
Proof.
  unfold assign.
  destruct (String.eqb_spec (decimal (N.of_nat (length (numbered 0 gs)))) "__proto__")
    as [E|_]; [now apply decimal_not_proto in E|].
  rewrite put_absent.
  - rewrite numbered_app, length_numbered. reflexivity.
  - apply get_numbered_fresh. rewrite length_numbered. lia.
Qed.

Lemma run_registrations (fs : list nat) :
  forall (gs : list nat) (s : State U),
    funQueue (pjax s) = numbered 0 gs ->
    let s' := run (registrations fs) s in
    funQueue (pjax s') = numbered 0 (gs ++ fs) /\
    container (pjax s') = container (pjax s) /\
    trace s' = trace s /\ page s' = page s /\
    windowResponse s' = windowResponse s /\
    PJAX.document (Legacy.window s') = PJAX.document (Legacy.window s) /\
    (fs <> [] -> PJAX.onload_ (Legacy.window s') = Some PJAX.ExecQueue /\
                 afterLoad (pjax s') = Some PJAX.ExecQueue).
Proof.
  induction fs as [|f fs IH]; intros gs s Hq; cbv zeta.
  - simpl. rewrite app_nil_r. split; [assumption|]. do 5 (split; [reflexivity|]).
    intros Hne. now elim Hne.
  - cbn [registrations map Legacy.run fold_left Legacy.perform].
    rewrite onload_anonymous. cbn [snd].
    set (s1 := setAfterLoad U _ _).
    assert (Hq1 : funQueue (pjax s1) = numbered 0 (gs ++ [f])).
    { subst s1. simpl. rewrite Hq. apply assign_numbered. }
    pose proof (IH (gs ++ [f]) s1 Hq1) as IH1. cbv zeta in IH1.
    destruct IH1 as (Q & C & T & P & R & D & H).
    fold (registrations fs). fold (run (registrations fs) s1).
    rewrite <- app_assoc in Q. split; [exact Q|].
    do 5 (split; [assumption|]). intros _.
    destruct fs as [|f' fs]; [split; reflexivity|]. now apply H.
Qed.

(** X10: functions registered without a key on the untouched queue get the
    keys "0", "1", ... and the window's load event calls each of them
    once, in registration order, and completes normally. *)
Theorem legacy_registered_functions_replayed_at_load (fs : list nat) (s : State U) :
  funQueue (pjax s) = [] ->
  fs <> [] ->
  (N.of_nat (length fs) <= 4294967295)%N ->
  exists s' t,
    perform WindowLoad (run (registrations fs) s) = (Normal tt, s') /\
    funQueue (pjax s') = numbered 0 fs /\
    trace s' = trace s ++ t /\
    Legacy.calls t = fs /\
    Legacy.evaluations t = [].
Proof.
  intros Hq Hne Hlen.
  pose proof (run_registrations fs [] s Hq) as H. cbv zeta in H. simpl app in H.
  destruct H as (Q & C & T & P & R & D & H). destruct (H Hne) as [Hon _].
  set (s1 := run (registrations fs) s) in *.
  unfold Legacy.perform, Legacy.bind at 1, Legacy.gets at 1. rewrite Hon.
  unfold Legacy.callHandler, Legacy.execQueue, Legacy.bind, Legacy.gets.
  rewrite Q, enumerate_numbered by exact Hlen.
  destruct (legacy_forEach_execEntry (numbered 0 fs) 0 s1)
    as (s2 & t & E & W2 & R2 & P2 & T2 & C2 & V2).
  - rewrite Q. now apply get_numbered_name.
  - intros [k v] Hin. rewrite Q. now apply (get_In k v).
  - exists s2, t. split; [exact E|]. rewrite P2, Q, T2, T, C2.
    now rewrite functionsOf_numbered.
Qed.

(** The whole replay, for a queue that has no property [hasOwnProperty]. *)
Lemma legacy_execQueue_spec (s : State U) :
  get "hasOwnProperty" (funQueue (pjax s)) = None ->
  exists s' t,
    execQueue s = (Normal tt, s') /\
    Legacy.window s' = Legacy.window s /\
    windowResponse s' = windowResponse s /\
    pjax s' = pjax s /\
    trace s' = trace s ++ t /\
    Legacy.calls t = Legacy.functionsOf (enumerate (funQueue (pjax s))) /\
    Legacy.evaluations t = [].
Proof.
  intros Hh. unfold Legacy.execQueue, Legacy.bind, Legacy.gets.
  apply legacy_forEach_execEntry; [exact Hh|].
  intros [k v] Hin. apply enumerate_In in Hin. now apply (get_In k v).
Qed.

Lemma map_fst_put (key : string) (v : value) (o : object) :
  map fst (put key v o) =
  if PJAX.isSome (get key o) then map fst o else map fst o ++ [key].
Proof.
  destruct (get key o) as [w|] eqn:E; simpl.
  - now apply put_present with w.
  - rewrite put_absent by exact E. now rewrite map_app.
Qed.

(** X11: [pjax.onload(f)] stores [f] under the decimal numeral of the
    number of properties the queue has.  Where that key is free the queue
    grows by it; where it is taken (after a registration under a numeric
    key) the function stored there is replaced and the queue does not
    grow.  No other property changes, nothing is called, and both handlers
    are installed. *)
Theorem legacy_anonymous_registration_slot (f : nat) (s : State U) :
  exists s',
    onload (Function f) Undefined s = (Normal tt, s') /\
    get (decimal (N.of_nat (length (funQueue (pjax s))))) (funQueue (pjax s')) =
      Some (Function f) /\
    (forall k, k <> decimal (N.of_nat (length (funQueue (pjax s)))) ->
               get k (funQueue (pjax s')) = get k (funQueue (pjax s))) /\
    map fst (funQueue (pjax s')) =
      (if PJAX.isSome (get (decimal (N.of_nat (length (funQueue (pjax s)))))
                           (funQueue (pjax s)))
       then map fst (funQueue (pjax s))
       else map fst (funQueue (pjax s)) ++
            [decimal (N.of_nat (length (funQueue (pjax s))))]) /\
    PJAX.onload_ (Legacy.window s') = Some PJAX.ExecQueue /\
    afterLoad (pjax s') = Some PJAX.ExecQueue /\
    PJAX.document (Legacy.window s') = PJAX.document (Legacy.window s) /\
    trace s' = trace s.
Proof.
  eexists. split; [apply onload_anonymous|]. simpl. unfold assign.
  destruct (String.eqb_spec (decimal (N.of_nat (length (funQueue (pjax s)))))
                            "__proto__") as [E|_];
    [now apply decimal_not_proto in E|].
  split; [apply get_put_same|]. split; [intros k Hk; now apply get_put_other|].
  split; [apply map_fst_put|]. repeat split.
Qed.

(** X12: [pjax.onload(k, g)] with a string [k] other than [__proto__]
    stores [g] under [k]: a function already registered under [k] is
    replaced where it stands, a new key goes to the end of the creation
    order, and no other property changes. *)
Theorem legacy_keyed_registration_replaces (k : string) (g : nat) (s : State U) :
  k <> "__proto__" ->
  exists s',
    onload (Str k) (Function g) s = (Normal tt, s') /\
    get k (funQueue (pjax s')) = Some (Function g) /\
    (forall k', k' <> k -> get k' (funQueue (pjax s')) = get k' (funQueue (pjax s))) /\
    map fst (funQueue (pjax s')) =
      (if PJAX.isSome (get k (funQueue (pjax s)))
       then map fst (funQueue (pjax s))
       else map fst (funQueue (pjax s)) ++ [k]) /\
    PJAX.onload_ (Legacy.window s') = Some PJAX.ExecQueue /\
    afterLoad (pjax s') = Some PJAX.ExecQueue /\
    trace s' = trace s.
Proof.
  intros Hk. eexists. split; [reflexivity|]. simpl. unfold assign.
  destruct (String.eqb_spec k "__proto__") as [E|_]; [contradiction|].
  split; [apply get_put_same|]. split; [intros k' Hk'; now apply get_put_other|].
  split; [apply map_fst_put|]. repeat split.
Qed.

(** X13: a call of [pjax.onload] that passes no function (neither as the
    callback nor as [func]) leaves the queue as it is, and still installs
    both handlers. *)
Theorem legacy_non_function_not_queued (callback func : value) (s : State U) :
  typeof callback <> "function" ->
  typeof func <> "function" ->
  exists s',
    onload callback func s = (Normal tt, s') /\
    funQueue (pjax s') = funQueue (pjax s) /\
    PJAX.onload_ (Legacy.window s') = Some PJAX.ExecQueue /\
    afterLoad (pjax s') = Some PJAX.ExecQueue /\
    trace s' = trace s.
Proof.
  intros Hc Hf. unfold Legacy.onload.
  destruct (String.eqb_spec (typeof callback) "function") as [E|_]; [contradiction|].
  destruct (String.eqb_spec (typeof func) "function") as [E|_]; [contradiction|].
  rewrite andb_false_r. eexists. split; [reflexivity|]. repeat split.
Qed.


Lemma legacy_replaceText_undefined (sel : selector) (i : nat) (s : State U) :
  windowResponse s = None ->
  Legacy.replaceText U sel i s =
  match querySelectorAll (PJAX.document (Legacy.window s)) sel with
  | [] => (Normal tt, s)
  | _ :: _ => (Throw undefinedResponse, s)
  end.
Proof.
  intros Hr. unfold Legacy.replaceText, Legacy.bind, Legacy.live, Legacy.gets.
  destruct (querySelectorAll _ sel) as [|el els]; [reflexivity|].
  simpl. unfold Legacy.bind, Legacy.copyText, Legacy.thisResponse, Legacy.bind,
    Legacy.gets. now rewrite Hr.
Qed.

Lemma legacy_replaceAttribute_undefined (en : PJAX.AttributeEntry) (i : nat)
  (s : State U) :
  windowResponse s = None ->
  Legacy.replaceAttribute U en i s =
  match querySelectorAll (PJAX.document (Legacy.window s)) (PJAX.entry_selector en) with
  | [] => (Normal tt, s)
  | _ :: _ => (Throw undefinedResponse, s)
  end.
Proof.
  intros Hr. unfold Legacy.replaceAttribute, Legacy.bind, Legacy.live, Legacy.gets.
  destruct (querySelectorAll _ _) as [|el els]; [reflexivity|].
  simpl. unfold Legacy.bind, Legacy.copyAttribute, Legacy.thisResponse, Legacy.bind,
    Legacy.gets. now rewrite Hr.
Qed.

Lemma legacy_replaceText_empty (sel : selector) (i : nat) (s : State U) :
  querySelectorAll (PJAX.document (Legacy.window s)) sel = [] ->
  Legacy.replaceText U sel i s = (Normal tt, s).
Proof.
  intros He. unfold Legacy.replaceText, Legacy.bind, Legacy.live, Legacy.gets.
  now rewrite He.
Qed.

Lemma legacy_replaceAttribute_empty (en : PJAX.AttributeEntry) (i : nat)
  (s : State U) :
  querySelectorAll (PJAX.document (Legacy.window s)) (PJAX.entry_selector en) = [] ->
  Legacy.replaceAttribute U en i s = (Normal tt, s).
Proof.
  intros He. unfold Legacy.replaceAttribute, Legacy.bind, Legacy.live, Legacy.gets.
  now rewrite He.
Qed.

(** X15: the load listener of the first version.  Its copy callbacks are
    plain functions, so [this.response] in them is [window.response]; on a
    page that defines no such global, the listener throws a TypeError at
    the first element any of the three fixed selectors matches in the live
    document, before it has changed anything: no field is copied, the
    container is not swapped, no script runs and nothing is replayed. *)
Theorem legacy_load_throws_at_first_field (response : Document) (s : State U) :
  windowResponse s = None ->
  (exists sel, In sel (selectors ++ map PJAX.entry_selector attrs) /\
               querySelectorAll (PJAX.document (Legacy.window s)) sel <> []) ->
  load response s = (Throw undefinedResponse, s).
Proof.
  intros Hr (sel & Hin & Hne).
  unfold Legacy.load, selectors, attrs.
  cbn [Legacy.forEach]. unfold Legacy.bind at 1. unfold Legacy.bind at 1.
  rewrite legacy_replaceText_undefined by exact Hr.
  destruct (querySelectorAll _ (mkSelector [] [Type_ "title"])) eqn:E1;
    [|reflexivity].
  unfold Legacy.bind at 1.
  rewrite legacy_replaceText_undefined by exact Hr.
  destruct (querySelectorAll _ (mkSelector [[Class "header-title"]] [Type_ "h1"]))
    eqn:E2; [|reflexivity].
  cbn [Legacy.ret]. unfold Legacy.bind at 1. unfold Legacy.bind at 1.
  rewrite legacy_replaceAttribute_undefined by exact Hr. cbn [PJAX.entry_selector].
  destruct (querySelectorAll _ (mkSelector [] [Type_ "meta"; AttrSuffix "name" "description"]))
    eqn:E3; [|reflexivity].
  exfalso. simpl in Hin. destruct Hin as [<-|[<-|[<-|[]]]]; now apply Hne.
Qed.

Lemma legacy_forEach_runScript (h : list node) (l : NodeList) :
  forall key (s : State U),
    head (PJAX.document (Legacy.window s)) = Some h ->
    exists s',
      forEach (Legacy.runScript U evalScript) key l s = (Normal tt, s') /\
      Legacy.window s' = Legacy.window s /\
      windowResponse s' = windowResponse s /\
      pjax s' = pjax s /\
      trace s' = trace s ++ map Evaluated (Handles.scriptTexts l) /\
      page s' = fold_left (fun u t => evalScript t u) (Handles.scriptTexts l) (page s).
Proof.
  unfold Handles.scriptTexts.
  induction l as [|code l IH]; intros key s Hh; simpl.
  - exists s. rewrite app_nil_r. repeat split.
  - unfold Legacy.bind at 1. unfold Legacy.runScript at 1.
    unfold Legacy.bind at 1, Legacy.live, Legacy.gets.
    rewrite Hh. cbv zeta.
    destruct (String.eqb (DOM.textContent (snd code)) "") eqn:Ht; simpl.
    + apply IH. exact Hh.
    + match goal with
      | |- context [Legacy.forEach U _ (S key) l ?st] =>
          destruct (IH (S key) st) as (s' & E & W & R & P & T & G); [exact Hh|]
      end.
      exists s'. rewrite E. split; [reflexivity|]. simpl in *.
      rewrite W, R, P, T, G, <- app_assoc. repeat split.
Qed.

(** X16: where the live document has no element for the three fixed
    selectors, the load listener of the first version swaps the first
    container and then evaluates the inline scripts of the fetched container
    once each, in document order: it takes the script list before the swap.
    The replay, if [onload] installed one, comes after the scripts. *)
Theorem legacy_load_swaps_then_evaluates (response : Document) (s : State U)
  (cur new : path * node) :
  (forall sel, In sel (selectors ++ map PJAX.entry_selector attrs) ->
               querySelectorAll (PJAX.document (Legacy.window s)) sel = []) ->
  querySelector (PJAX.document (Legacy.window s)) (container (pjax s)) = Some cur ->
  querySelector response (container (pjax s)) = Some new ->
  head (update (fun _ => snd new) (fst cur) (PJAX.document (Legacy.window s))) <> None ->
  get "hasOwnProperty" (funQueue (pjax s)) = None ->
  exists s' t,
    load response s = (Normal tt, s') /\
    PJAX.document (Legacy.window s') =
      update (fun _ => snd new) (fst cur) (PJAX.document (Legacy.window s)) /\
    pjax s' = pjax s /\
    trace s' =
      trace s ++
      map Evaluated
          (Handles.scriptTexts
             (querySelectorAll response
                (descendant (container (pjax s)) PJAX.scriptSelector))) ++ t /\
    Legacy.evaluations t = [] /\
    Legacy.calls t =
      match afterLoad (pjax s) with
      | Some PJAX.ExecQueue => Legacy.functionsOf (enumerate (funQueue (pjax s)))
      | _ => []
      end.
Proof.
  intros Hnone Hcur Hnew Hhead Hown.
  unfold Legacy.load, selectors, attrs.
  cbn [Legacy.forEach]. unfold Legacy.bind at 1. unfold Legacy.bind at 1.
  rewrite legacy_replaceText_empty by (apply Hnone; simpl; tauto).
  unfold Legacy.bind at 1.
  rewrite legacy_replaceText_empty by (apply Hnone; simpl; tauto).
  cbn [Legacy.ret]. unfold Legacy.bind at 1. unfold Legacy.bind at 1.
  rewrite legacy_replaceAttribute_empty by (apply Hnone; simpl; tauto).
  cbn [Legacy.ret]. unfold Legacy.bind at 1, Legacy.gets at 1.
  unfold Legacy.bind at 1. unfold Legacy.bind at 1, Legacy.live, Legacy.gets at 1.
  rewrite Hcur, Hnew. unfold Legacy.write, Legacy.modify.
  set (s1 := withWindow U _ s).
  destruct (head (update (fun _ => snd new) (fst cur)
                         (PJAX.document (Legacy.window s)))) as [h|] eqn:Hh;
    [clear Hhead|now elim Hhead].
  unfold Legacy.bind at 1.
  destruct (legacy_forEach_runScript h
              (querySelectorAll response
                 (descendant (container (pjax s)) PJAX.scriptSelector)) 0 s1)
    as (s2 & E2 & W2 & R2 & P2 & T2 & G2); [exact Hh|].
  rewrite E2. unfold Legacy.bind at 1, Legacy.gets. rewrite P2.
  change (pjax s1) with (pjax s).
  destruct (afterLoad (pjax s)) as [[|]|].
  - destruct (legacy_execQueue_spec s2) as (s3 & t & E3 & W3 & R3 & P3 & T3 & C3 & V3).
    { now rewrite P2. }
    exists s3, t. split; [exact E3|]. rewrite W3, W2, P3, P2, T3, T2, C3, P2.
    change (pjax s1) with (pjax s). change (trace s1) with (trace s).
    rewrite <- app_assoc. repeat split. exact V3.
  - eexists. exists []. split; [reflexivity|]. simpl.
    rewrite W2, P2, T2, app_nil_r. repeat split.
  - exists s2, []. split; [reflexivity|].
    rewrite W2, P2, T2, app_nil_r. repeat split.
Qed.

(** X19: the swap of the first version is not guarded either.  Where the
    three fixed selectors match nothing in the live document and the
    container selector has no match in the live document or none in the
    fetched one, the load listener throws and leaves everything as it was:
    the scripts of the fetched document are not evaluated and nothing is
    replayed. *)
Theorem legacy_load_without_container_throws (response : Document) (s : State U) :
  (forall sel, In sel (selectors ++ map PJAX.entry_selector attrs) ->
               querySelectorAll (PJAX.document (Legacy.window s)) sel = []) ->
  querySelector (PJAX.document (Legacy.window s)) (container (pjax s)) = None \/
  querySelector response (container (pjax s)) = None ->
  exists e, load response s = (Throw e, s).
Proof.
  intros Hnone Hmiss.
  unfold Legacy.load, selectors, attrs.
  cbn [Legacy.forEach]. unfold Legacy.bind at 1. unfold Legacy.bind at 1.
  rewrite legacy_replaceText_empty by (apply Hnone; simpl; tauto).
  unfold Legacy.bind at 1.
  rewrite legacy_replaceText_empty by (apply Hnone; simpl; tauto).
  cbn [Legacy.ret]. unfold Legacy.bind at 1. unfold Legacy.bind at 1.
  rewrite legacy_replaceAttribute_empty by (apply Hnone; simpl; tauto).
  cbn [Legacy.ret]. unfold Legacy.bind at 1, Legacy.gets at 1.
  unfold Legacy.bind at 1. unfold Legacy.bind at 1, Legacy.live, Legacy.gets at 1.
  destruct (querySelector (PJAX.document (Legacy.window s)) (container (pjax s)))
    as [cur|]; [|eexists; reflexivity].
  destruct Hmiss as [Hm|Hm]; [discriminate|]. rewrite Hm. eexists. reflexivity.
Qed.


(** X18: [pjax.setup] of the first version calls nothing: with the
    history API it adds the click listener to the [.pjax-link] elements
    and installs the popstate handler, without it it does nothing at all.
    The popstate handler it installs sends one request for the current
    location and pushes no history entry. *)
Theorem legacy_setup_never_replays (s : State U) :
  if PJAX.pushStateSupported (Legacy.window s)
  then
    exists s' s'',
      Legacy.setup U s = (Normal tt, s') /\
      PJAX.document (Legacy.window s') =
        PJAX.addLinkEvent
          (querySelectorAll (PJAX.document (Legacy.window s)) pjaxLink)
          (PJAX.document (Legacy.window s)) /\
      PJAX.onpopstate (Legacy.window s') = Some PJAX.PopstateArrow /\
      PJAX.onload_ (Legacy.window s') = PJAX.onload_ (Legacy.window s) /\
      PJAX.sent (Legacy.window s') = PJAX.sent (Legacy.window s) /\
      pjax s' = pjax s /\ page s' = page s /\ trace s' = trace s /\
      perform PopState s' = (Normal tt, s'') /\
      PJAX.sent (Legacy.window s'') =
        PJAX.sent (Legacy.window s) ++ [PJAX.location (Legacy.window s)] /\
      PJAX.pushed (Legacy.window s'') = PJAX.pushed (Legacy.window s) /\
      PJAX.document (Legacy.window s'') = PJAX.document (Legacy.window s') /\
      trace s'' = trace s
  else Legacy.setup U s = (Normal tt, s).
Proof.
  unfold Legacy.setup, Legacy.bind, Legacy.gets.
  destruct (PJAX.pushStateSupported (Legacy.window s)); [|reflexivity].
  do 2 eexists. split; [reflexivity|]. simpl. repeat split.
Qed.

End LegacyEngine.

(** * The further theorems at work on concrete pages *)

Section MoreInstances.
Import Scenario MoreScenario Handles.

Local Abbreviation loadS := (PJAX.load Page call evalScript).
Local Abbreviation runS := (PJAX.run Page call evalScript).
Local Abbreviation loadL := (Legacy.load Page call test evalScript).
Local Abbreviation runL := (Legacy.run Page call test evalScript).
Local Abbreviation performL := (Legacy.perform Page call test evalScript).

Lemma moved_container_scripts_never_evaluated_witness :
  length (querySelectorAll fetchedB (container (pjax (start liveA engine)))) <= 1 /\
  evaluations (trace (snd (loadS fetchedB (start liveA engine)))) = [].
Proof.
  assert (H : length (querySelectorAll fetchedB
                        (container (pjax (start liveA engine)))) <= 1)
    by (vm_compute; lia).
  split; [exact H|].
  exact (moved_container_scripts_never_evaluated Page call evalScript fetchedB
           (start liveA engine) H).
Defined.


Lemma load_replays_once_witness :
  fst (loadS fetchedB registered) = Normal tt /\
  exists t,
    trace (snd (loadS fetchedB registered)) = trace registered ++ t /\
    calls t = [1; 13; 2].
Proof.
  split; [reflexivity|].
  exact (load_replays_once Page call evalScript fetchedB registered eq_refl).
Defined.

Lemma load_links_intercepted_witness :
  querySelector liveLink (container engine) =
    Some ([0; 1; 0], el "div" [("class", "body")] [linkTo "/b" "B"]) /\
  querySelector fetchedLink (container engine) =
    Some ([0; 1; 0], el "div" [("class", "body")] [Text "B"; linkTo "/a" "A"]) /\
  elementAt (document (window (snd (loadS fetchedLink (start liveLink engine)))))
            [0; 1; 0; 1] =
  Some (mkElement "a" [("class", "pjax-link"); ("href", "/a")] 1).
Proof.
  split; [reflexivity|]. split; [reflexivity|].
  exact (load_links_intercepted Page call evalScript fetchedLink
           (start liveLink engine)
           ([0; 1; 0], el "div" [("class", "body")] [linkTo "/b" "B"])
           ([0; 1; 0], el "div" [("class", "body")] [Text "B"; linkTo "/a" "A"])
           [1] eq_refl eq_refl).
Defined.

Lemma legacy_throwing_callback_isolated_witness :
  Legacy.get "hasOwnProperty" (Legacy.funQueue (Legacy.pjax (legacyRegistered liveA))) =
    None /\
  Legacy.enumerate (Legacy.funQueue (Legacy.pjax (legacyRegistered liveA))) =
    [("0", Function 1)] ++ ("1", Function 13) :: [("2", Function 2)] /\
  exists s' t1 t2,
    Legacy.execQueue Page call test (legacyRegistered liveA) = (Normal tt, s') /\
    Legacy.trace s' =
      Legacy.trace (legacyRegistered liveA) ++
      t1 ++ [Legacy.Called 13; Legacy.Logged (Thrown (Str "boom"))] ++ t2 /\
    Legacy.calls t1 = [1] /\
    Legacy.calls t2 = [2] /\
    Legacy.pjax s' = Legacy.pjax (legacyRegistered liveA).
Proof.
  split; [reflexivity|]. split; [reflexivity|].
  exact (legacy_throwing_callback_isolated Page call test
           [("0", Function 1)] [("2", Function 2)] "1" 13 (Thrown (Str "boom"))
           (legacyRegistered liveA) eq_refl eq_refl eq_refl).
Defined.

Lemma legacy_registered_functions_replayed_at_load_witness :
  (N.of_nat (length [1; 13; 2]) <= 4294967295)%N /\
  exists s' t,
    performL Legacy.WindowLoad (legacyRegistered liveA) = (Normal tt, s') /\
    Legacy.funQueue (Legacy.pjax s') =
      [("0", Function 1); ("1", Function 13); ("2", Function 2)] /\
    Legacy.trace s' = [] ++ t /\
    Legacy.calls t = [1; 13; 2] /\
    Legacy.evaluations t = [].
Proof.
  assert (H : (N.of_nat (length [1; 13; 2]) <= 4294967295)%N)
    by (vm_compute; discriminate).
  split; [exact H|].
  exact (legacy_registered_functions_replayed_at_load Page call test evalScript
           [1; 13; 2] (legacyStart liveA) eq_refl
           (fun E => eq_ind [1; 13; 2]
                       (fun l => match l with [] => False | _ :: _ => True end)
                       I [] E)
           H).
Defined.

Lemma legacy_keyed_registration_replaces_witness :
  exists s',
    Legacy.onload Page (Str "init") (Function 2)
      (snd (Legacy.onload Page (Str "init") (Function 1) (legacyStart liveA))) =
    (Normal tt, s') /\
    Legacy.get "init" (Legacy.funQueue (Legacy.pjax s')) = Some (Function 2) /\
    map fst (Legacy.funQueue (Legacy.pjax s')) = ["init"].
Proof.
  destruct (legacy_keyed_registration_replaces Page "init" 2
              (snd (Legacy.onload Page (Str "init") (Function 1) (legacyStart liveA))))
    as (s' & E & G & _ & K & _); [discriminate|].
  exists s'. split; [exact E|]. split; [exact G | exact K].
Defined.

Lemma legacy_non_function_not_queued_witness :
  exists s',
    Legacy.onload Page (Number 3) Undefined (legacyRegistered liveA) = (Normal tt, s') /\
    Legacy.funQueue (Legacy.pjax s') =
    Legacy.funQueue (Legacy.pjax (legacyRegistered liveA)).
Proof.
  destruct (legacy_non_function_not_queued Page (Number 3) Undefined
              (legacyRegistered liveA))
    as (s' & E & Q & _); [discriminate | discriminate |].
  exists s'. split; [exact E | exact Q].
Defined.


Lemma legacy_load_throws_at_first_field_witness :
  Legacy.windowResponse (legacyStart liveA) = None /\
  querySelectorAll liveA titleSelector <> [] /\
  loadL fetchedB (legacyStart liveA) =
  (Throw Legacy.undefinedResponse, legacyStart liveA).
Proof.
  assert (H : querySelectorAll liveA titleSelector <> []) by discriminate.
  split; [reflexivity|]. split; [exact H|].
  apply (legacy_load_throws_at_first_field Page call test evalScript fetchedB
           (legacyStart liveA)); [reflexivity|].
  exists titleSelector. split; [now left | exact H].
Defined.

Lemma legacy_load_swaps_then_evaluates_witness :
  exists s' t,
    loadL fetchedB (legacyRegistered liveBare) = (Normal tt, s') /\
    textAt (PJAX.document (Legacy.window s')) [0; 1; 0; 0] = Some "B" /\
    Legacy.trace s' = [] ++ [Legacy.Evaluated "window.__x=1"] ++ t /\
    Legacy.calls t = [1; 13; 2].
Proof.
  destruct (legacy_load_swaps_then_evaluates Page call test evalScript fetchedB
              (legacyRegistered liveBare)
              ([0; 1; 0], el "div" [("class", "body")] [Text "A"])
              ([0; 1; 0], el "div" [("class", "body")]
                             [Text "B"; el "script" [] [Text "window.__x=1"]]))
    as (s' & t & E & D & _ & T & _ & C).
  - intros sel [<-|[<-|[<-|[]]]]; reflexivity.
  - reflexivity.
  - reflexivity.
  - discriminate.
  - reflexivity.
  - exists s', t. split; [exact E|]. split; [now rewrite D|].
    split; [exact T | exact C].
Defined.

Lemma legacy_load_without_container_throws_witness :
  querySelector liveBare (Legacy.container Legacy.initial) <> None /\
  querySelector liveNoContainer (Legacy.container Legacy.initial) = None /\
  exists e,
    loadL liveNoContainer (legacyRegistered liveBare) =
    (Throw e, legacyRegistered liveBare).
Proof.
  split; [discriminate|]. split; [reflexivity|].
  apply (legacy_load_without_container_throws Page call test evalScript
           liveNoContainer (legacyRegistered liveBare)).
  - intros sel [<-|[<-|[<-|[]]]]; reflexivity.
  - right. reflexivity.
Defined.

End MoreInstances.
